(** * Verification of the command-dispatch core of the neo bot

    Shallow embedding of [src/neo/core/__init__.py] and [src/neo/context.py].
    Discord ids are [Z]; the wall clock is a [Q] (Python floats of seconds,
    only ever compared and subtracted); Python strings are lists of code
    points.  Platform calls (add/remove reaction, send, edit) are recorded in
    an explicit trace so that "no-op" and "exactly once" can be stated. *)

From Stdlib Require Import QArith Lqa Lia.
From stdpp Require Import base gmap list strings pretty.

(* ------------------------------------------------------------------ *)
(** ** Exceptions that cross the check pipeline *)

(** The exceptions of the code that matter here.  [HTTPException code] is
    [discord.HTTPException] (and its subclass [discord.Forbidden]) with its
    JSON error code; [OtherExc n] stands for any other exception class. *)
Inductive exc :=
  | CommandOnCooldown (retry_after : Q)
  | Blacklisted
  | CheckFailure
  | UniqueViolationError
  | HTTPException (code : Z)
  | OtherExc (name : nat).

(** Outcome of one check predicate as [discord.utils.async_all] sees it:
    a truthy value, a falsy value, or a raised exception. *)
Inductive check_result :=
  | Pass
  | Falsy
  | Raise (e : exc).

(* ------------------------------------------------------------------ *)
(** ** Global rate limit: [NeoBot.global_cooldown]

    [self._cd = commands.CooldownMapping.from_cooldown(2.0, 2.5,
    commands.BucketType.user)].  The mapping and its buckets are the
    library classes [discord.ext.commands.cooldowns.Cooldown] and
    [CooldownMapping] (discord.py 1.x), translated below. *)

Module RateLimit.
Local Open Scope Q_scope.

Record Cooldown := mkCooldown {
  rate : nat;      (* self.rate = int(rate) *)
  per : Q;         (* self.per = float(per) *)
  _window : Q;
  _tokens : nat;
  _last : Q
}.

(** [Cooldown.__init__] *)
Definition new_cooldown (r : nat) (p : Q) : Cooldown :=
  mkCooldown r p 0 r 0.

(** [Cooldown.copy]: a fresh bucket with the same rate and period. *)
Definition copy (c : Cooldown) : Cooldown := new_cooldown (rate c) (per c).

(** [Cooldown.get_tokens]: the whole allowance comes back once the
    current window has elapsed. *)
Definition get_tokens (c : Cooldown) (current : Q) : nat :=
  if Qle_bool current (_window c + per c) then _tokens c else rate c.

(** [Cooldown.update_rate_limit]: returns [Some retry_after] when rate
    limited (Python returns the float), [None] otherwise (Python returns
    [None]), together with the mutated bucket. *)
Definition update_rate_limit (c : Cooldown) (current : Q)
  : option Q * Cooldown :=
  let tokens := get_tokens c current in
  (* self._last = current; self._tokens = self.get_tokens(current) *)
  let c1 := mkCooldown (rate c) (per c) (_window c) tokens current in
  (* first token used means that we start a new rate limit window *)
  let c2 := if Nat.eqb tokens (rate c)
            then mkCooldown (rate c) (per c) current tokens current
            else c1 in
  if Nat.eqb (_tokens c2) 0
  then (Some (per c2 - (current - _window c2)), c2)
  else
    let c3 := mkCooldown (rate c2) (per c2) (_window c2)
                         (Nat.pred (_tokens c2)) current in
    if Nat.eqb (_tokens c3) 0
    then (None, mkCooldown (rate c3) (per c3) current 0 current)
    else (None, c3).

(** [CooldownMapping]: the prototype bucket and the per-key cache
    ([self._cache], a dict from bucket key to bucket). *)
Record CooldownMapping := mkMapping {
  _cooldown : Cooldown;
  _cache : gmap Z Cooldown
}.

(** [CooldownMapping.from_cooldown(rate, per, type)] *)
Definition from_cooldown (r : nat) (p : Q) : CooldownMapping :=
  mkMapping (new_cooldown r p) ∅.

(** The bucket is kept while [current <= last + per]. *)
Definition alive (current : Q) (c : Cooldown) : bool :=
  Qle_bool current (_last c + per c).

(** [CooldownMapping._verify_cache_integrity]: drops every bucket with
    [current > v._last + v.per]. *)
Definition verify_cache_integrity (m : CooldownMapping) (current : Q)
  : CooldownMapping :=
  mkMapping (_cooldown m)
            (filter (fun kv : Z * Cooldown => alive current kv.2 = true)
                    (_cache m)).

(** [CooldownMapping.get_bucket] with [BucketType.user]: the key is
    [message.author.id]; a missing key gets a copy of the prototype, which
    is stored in the cache (the returned bucket is that same object). *)
Definition get_bucket (m : CooldownMapping) (author : Z) (current : Q)
  : CooldownMapping * Cooldown :=
  let m1 := verify_cache_integrity m current in
  match _cache m1 !! author with
  | Some b => (m1, b)
  | None =>
      let b := copy (_cooldown m1) in
      (mkMapping (_cooldown m1) (<[author := b]> (_cache m1)), b)
  end.

(** Python truthiness of the float [retry_after]. *)
Definition truthy_float (r : Q) : bool := negb (Qeq_bool r 0).

(** [NeoBot.global_cooldown]:
    {v
    bucket = self._cd.get_bucket(ctx.message)
    retry_after = bucket.update_rate_limit()
    if retry_after:
        raise commands.CommandOnCooldown(bucket, retry_after)
    return True
    v}
    The bucket is mutated in place inside the cache; the write-back models
    that aliasing. *)
Definition global_cooldown (m : CooldownMapping) (author : Z) (current : Q)
  : CooldownMapping * check_result :=
  let '(m1, b) := get_bucket m author current in
  let '(retry_after, b') := update_rate_limit b current in
  let m2 := mkMapping (_cooldown m1) (<[author := b']> (_cache m1)) in
  match retry_after with
  | Some r => if truthy_float r then (m2, Raise (CommandOnCooldown r))
              else (m2, Pass)
  | None => (m2, Pass)
  end.

(** [NeoBot.__init__]: [self._cd]. *)
Definition neo_cd : CooldownMapping := from_cooldown 2 (5 # 2).

(** A sequence of invocations [(author, time)] through the stage. *)
Fixpoint run_cooldown (m : CooldownMapping) (calls : list (Z * Q))
  : CooldownMapping * list check_result :=
  match calls with
  | [] => (m, [])
  | (a, t) :: rest =>
      let '(m1, r) := global_cooldown m a t in
      let '(m2, rs) := run_cooldown m1 rest in
      (m2, r :: rs)
  end.

End RateLimit.


(* ------------------------------------------------------------------ *)
(** ** The bot state, the blacklist stage and the check pipeline

    [NeoBot.__init__] registers [global_cooldown] with [call_once=True]
    (so it lands in [Bot._check_once]) and [check_blacklist] as a plain
    global check (in [Bot._checks]).  The order in which discord.py 1.x
    runs them is [Bot.invoke] -> [Bot.can_run(ctx, call_once=True)] ->
    [Command.invoke] -> [Command.prepare] -> [Command.can_run]
    ([Bot.can_run(ctx)], then the cog check, then the command's checks)
    -> the callback; each list of checks goes through
    [discord.utils.async_all], translated below. *)

Module Core.
Import RateLimit.

(** A row of [user_data] as cached by [self.user_cache].  Only the column
    read by the core is kept; [_blacklisted] is a nullable boolean
    column ([None] is SQL NULL). *)
Record Profile := mkProfile { _blacklisted : option bool }.

(** The row inserted by [INSERT INTO user_data (user_id) VALUES ($1)]: the
    columns that are not given take their SQL default, NULL. *)
Definition new_row : Profile := mkProfile None.

(** The process-wide state the core reads and writes. *)
Record Bot := mkBot {
  _cd : CooldownMapping;            (* self._cd *)
  user_cache : gmap Z Profile;      (* self.user_cache, keyed by user_id *)
  user_data : gmap Z Profile        (* the user_data table in storage *)
}.

(** The invocation context: the author of [ctx.message] and the clock
    value read by [update_rate_limit]. *)
Record Ctx := mkCtx { author : Z; now : Q }.

(** A check is a state transformer returning what the predicate did. *)
Definition check := Bot -> Ctx -> Bot * check_result.

(** Python's [x is True] on the nullable column. *)
Definition is_True (v : option bool) : bool :=
  match v with Some true => true | _ => false end.

(** [NeoBot.check_blacklist]:
    {v
    if (p := self.user_cache.get(ctx.author.id)):
        if p['_blacklisted'] is True:
            raise neo.utils.errors.Blacklisted()
        else:
            return True
    else:
        return True
    v}
    A cached row is never falsy (it always holds [user_id]). *)
Definition check_blacklist : check := fun b ctx =>
  match user_cache b !! author ctx with
  | Some p => if is_True (_blacklisted p) then (b, Raise Blacklisted)
              else (b, Pass)
  | None => (b, Pass)
  end.

(** [NeoBot.global_cooldown] as a check over the whole bot state. *)
Definition global_cooldown_check : check := fun b ctx =>
  let '(cd', r) := global_cooldown (_cd b) (author ctx) (now ctx) in
  (mkBot cd' (user_cache b) (user_data b), r).

(** Names of the stages, recorded in the trace when a stage runs. *)
Inductive stage :=
  | StageCooldown
  | StageBlacklist
  | StageCogCheck
  | StageCommandCheck (i : nat)
  | StageExecutor.

Definition stage_eq_dec : EqDecision stage.
Proof. intros x y. unfold Decision. decide equality. apply Nat.eq_dec. Defined.
#[global] Existing Instance stage_eq_dec.

(** What the trace records: a check stage that ran, with its result, or
    the callback (the executor) being entered. *)
Inductive event :=
  | Ran (s : stage) (r : check_result)
  | Executed.

(** Result of [async_all] over a list of checks: [inl true] when all are
    truthy, [inl false] at the first falsy one, [inr e] when one raises. *)
Definition all_result := (bool + exc)%type.

(** [discord.utils.async_all]: evaluates the checks in order and stops at
    the first falsy result; an exception propagates at once. *)
Fixpoint async_all (fs : list (stage * check)) (b : Bot) (ctx : Ctx)
    (tr : list event) : Bot * list event * all_result :=
  match fs with
  | [] => (b, tr, inl true)
  | (lbl, f) :: rest =>
      let '(b1, r) := f b ctx in
      let tr1 := tr ++ [Ran lbl r] in
      match r with
      | Pass => async_all rest b1 ctx tr1
      | Falsy => (b1, tr1, inl false)
      | Raise e => (b1, tr1, inr e)
      end
  end.

(** A command: its cog's [cog_check] (when the cog overrides it), its own
    [checks], and what its callback does (raise or return). *)
Record Command := mkCommand {
  cog_check : option check;
  checks : list check;
  callback : Bot -> Ctx -> Bot * option exc
}.

(** [self._check_once] and [self._checks] after [NeoBot.__init__]. *)
Definition check_once : list (stage * check) :=
  [(StageCooldown, global_cooldown_check)].
Definition global_checks : list (stage * check) :=
  [(StageBlacklist, check_blacklist)].

Definition cog_checks (cmd : Command) : list (stage * check) :=
  match cog_check cmd with
  | Some f => [(StageCogCheck, f)]
  | None => []
  end.

Definition command_checks (cmd : Command) : list (stage * check) :=
  zip (map StageCommandCheck (seq 0 (length (checks cmd)))) (checks cmd).

(** How an invocation ends: completed, or an error that is dispatched to
    [on_command_error]. *)
Inductive outcome :=
  | Completed
  | Errored (e : exc).

(** [Command.can_run]: [inl true]/[inl false] for the returned value, [inr]
    for a raised exception.  A falsy [Bot.can_run(ctx)] raises
    [CheckFailure]; a falsy cog check returns [False]; an absent cog check
    is skipped (running no check). *)
Definition command_can_run (cmd : Command) (b : Bot) (ctx : Ctx)
    (tr : list event) : Bot * list event * all_result :=
  let '(b1, tr1, r1) := async_all global_checks b ctx tr in
  match r1 with
  | inr e => (b1, tr1, inr e)
  | inl false => (b1, tr1, inr CheckFailure)
  | inl true =>
      let '(b2, tr2, r2) := async_all (cog_checks cmd) b1 ctx tr1 in
      match r2 with
      | inr e => (b2, tr2, inr e)
      | inl false => (b2, tr2, inl false)
      | inl true => async_all (command_checks cmd) b2 ctx tr2
      end
  end.

(** [Bot.invoke] with [Command.invoke]/[Command.prepare]: the call-once
    checks, then [Command.can_run] (a falsy result raises [CheckFailure]),
    then the callback. *)
Definition invoke (cmd : Command) (b : Bot) (ctx : Ctx)
  : Bot * list event * outcome :=
  let '(b1, tr1, r1) := async_all check_once b ctx [] in
  match r1 with
  | inr e => (b1, tr1, Errored e)
  | inl false => (b1, tr1, Errored CheckFailure)
  | inl true =>
      let '(b2, tr2, r2) := command_can_run cmd b1 ctx tr1 in
      match r2 with
      | inr e => (b2, tr2, Errored e)
      | inl false => (b2, tr2, Errored CheckFailure)
      | inl true =>
          let '(b3, e) := callback cmd b2 ctx in
          (b3, tr2 ++ [Executed],
           match e with None => Completed | Some x => Errored x end)
      end
  end.

(** The order the check stages are declared in. *)
Definition check_order (cmd : Command) : list stage :=
  [StageCooldown; StageBlacklist]
  ++ (match cog_check cmd with Some _ => [StageCogCheck] | None => [] end)
  ++ map StageCommandCheck (seq 0 (length (checks cmd))).

Definition passed (s : stage) : event := Ran s Pass.

(** The trace ends with a denial by the [k]-th stage of [ss], all the
    stages before it having passed. *)
Definition denied_at (ss : list stage) (tr : list event) : Prop :=
  exists k s r, ss !! k = Some s /\ r <> Pass /\
    tr = map passed (take k ss) ++ [Ran s r].

End Core.


(* ------------------------------------------------------------------ *)
(** ** Prefix resolution: [get_prefix] *)

Module Prefix.

(** The value stored under ['prefixes'] in a cached [guild_prefs] row: a
    list of strings, or SQL NULL ([None] in Python). *)
Inductive pyval :=
  | PList (l : list string)
  | PNone.

(** A cached [guild_prefs] row; [prefixes = None] means the row has no
    ['prefixes'] key (subscripting raises [KeyError]). *)
Record GuildRow := mkGuildRow { prefixes : option pyval }.

Record PBot := mkPBot {
  is_closed : bool;
  bot_user_id : Z;                 (* bot.user.id *)
  guild_cache : gmap Z GuildRow    (* bot.guild_cache, keyed by guild_id *)
}.

(** The message fields read: [message.guild] ([None] in a DM). *)
Record Message := mkMessage { guild : option Z }.

(** What [get_prefix] does: return a list of prefixes, return [None]
    (closed bot), or raise. *)
Inductive prefix_result :=
  | Prefixes (l : list string)
  | ReturnsNone
  | RaisesTypeError.

(** [commands.when_mentioned] in discord.py 1.x:
    [[bot.user.mention + ' ', '<@!%s> ' % bot.user.id]]. *)
Definition when_mentioned (uid : Z) : list string :=
  [String.append "<@" (String.append (pretty uid) "> ");
   String.append "<@!" (String.append (pretty uid) "> ")].

(** [commands.when_mentioned_or( *prefixes)(bot, msg)]: the mentions first,
    then the given prefixes. *)
Definition when_mentioned_or (uid : Z) (ps : list string) : list string :=
  when_mentioned uid ++ ps.

(** [list({*xs})]: the distinct elements.  The iteration order of a Python
    set is unspecified; [remove_dups] fixes one. *)
Definition list_of_set (xs : list string) : list string := remove_dups xs.

(** [get_prefix]:
    {v
    if bot.is_closed():
        return
    await bot.wait_until_ready()
    prefix = ['n/']
    if message.guild:
        with suppress(KeyError):
            prefix = list({*bot.guild_cache[message.guild.id]['prefixes']})
    return commands.when_mentioned_or( *prefix)(bot, message)
    v}
    [{*None}] raises [TypeError], which is not suppressed. *)
Definition get_prefix (bot : PBot) (message : Message) : prefix_result :=
  if is_closed bot then ReturnsNone else
  let default := ["n/"] in
  let prefix :=
    match guild message with
    | None => Some default
    | Some gid =>
        match guild_cache bot !! gid with
        | None => Some default                          (* KeyError *)
        | Some row =>
            match prefixes row with
            | None => Some default                      (* KeyError *)
            | Some (PList l) => Some (list_of_set l)
            | Some PNone => None                        (* TypeError *)
            end
        end
    end in
  match prefix with
  | Some p => Prefixes (when_mentioned_or (bot_user_id bot) p)
  | None => RaisesTypeError
  end.

End Prefix.

(* ------------------------------------------------------------------ *)
(** ** Platform calls made by the context helpers *)

Module Platform.

(** A platform call, or a local event dispatch, in the order made. *)
Inductive action :=
  | Send (content : string)
  | AddReaction (msg : Z) (emoji : string)
  | RemoveReaction (msg : Z) (emoji : string) (user : Z)
  | Edit (msg : Z) (content : string)
  | DispatchCommandError (e : exc).

(** The emoji entries of [neo.conf['emojis']] that the helpers use. *)
Record Emojis := mkEmojis {
  check_button : string;
  x_button : string;
  loading : string;
  warning_button : string
}.

End Platform.

(* ------------------------------------------------------------------ *)
(** ** Confirmation prompt: [Context.prompt] *)

Module Prompt.
Import Platform.

(** A [raw_reaction_add] payload. *)
Record Payload := mkPayload {
  p_emoji : string;     (* str(p.emoji) *)
  p_user_id : Z;
  p_message_id : Z
}.

(** A Python dict built from a literal with string keys: a later duplicate
    key overwrites the value in place, keeping the first position. *)
Fixpoint dict_insert {V} (k : string) (v : V) (d : list (string * V))
  : list (string * V) :=
  match d with
  | [] => [(k, v)]
  | (k', v') :: rest =>
      if String.eqb k k' then (k, v) :: rest else (k', v') :: dict_insert k v rest
  end.

Definition dict_of {V} (kvs : list (string * V)) : list (string * V) :=
  fold_left (fun d kv => dict_insert kv.1 kv.2 d) kvs [].

Fixpoint dict_get {V} (d : list (string * V)) (k : string) : option V :=
  match d with
  | [] => None
  | (k', v) :: rest => if String.eqb k k' then Some v else dict_get rest k
  end.

(** [bot.wait_for(event, check=...)] without timeout: the first event of
    the stream that satisfies [check]; [None] while none has arrived. *)
Fixpoint wait_for {A} (check : A -> bool) (evs : list A) : option A :=
  match evs with
  | [] => None
  | e :: rest => if check e then Some e else wait_for check rest
  end.

(** [Context.prompt]: [author] is [self.author.id]; [msg_id] is the id of
    the message returned by [self.send(message)]; [evs] is the stream of
    [raw_reaction_add] payloads after the reactions were added.  Returns
    the calls made and the boolean result ([None]: still waiting). *)
Definition prompt (cfg : Emojis) (author msg_id : Z) (message : string)
    (evs : list Payload) : list action * option bool :=
  let emojis := dict_of [(check_button cfg, true); (x_button cfg, false)] in
  let sent := [Send message] ++ map (fun e => AddReaction msg_id e.1) emojis in
  let check := fun p =>
    bool_decide (p_emoji p ∈ map fst emojis)
    && Z.eqb (p_user_id p) author && Z.eqb (p_message_id p) msg_id in
  match wait_for check evs with
  | None => (sent, None)
  | Some payload =>
      match dict_get emojis (p_emoji payload) with
      | Some true => (sent ++ [Edit msg_id "Confirmed!"], Some true)
      | _ => (sent ++ [Edit msg_id "Cancelled!"], Some false)
      end
  end.

(** The check of the wait, as a predicate on a payload. *)
Definition prompt_accepts (cfg : Emojis) (author msg_id : Z) (p : Payload)
  : bool :=
  bool_decide (p_emoji p ∈ [check_button cfg; x_button cfg])
  && Z.eqb (p_user_id p) author && Z.eqb (p_message_id p) msg_id.

End Prompt.


(* ------------------------------------------------------------------ *)
(** ** Loading indicator: [Loading] used as [async with ctx.loading()] *)

Module Indicator.
Import Platform.

(** An exception class, given by its [isinstance] test. *)
Definition exc_type := exc -> bool.

Record Loading := mkLoading {
  prop : bool;
  tick : bool;
  exc_ignore : list exc_type;   (* None or a tuple of classes: [] is falsy *)
  can_react : bool
}.

(** [Loading.__init__(context, *, prop=True, tick=True, exc_ignore=None)]. *)
Definition new_loading (prop tick : bool) (exc_ignore : list exc_type)
  : Loading := mkLoading prop tick exc_ignore true.

(** What the platform does with a call: [None] when it succeeds, [Some e]
    when it raises [e]. *)
Definition platform := action -> option exc.

(** The invocation the indicator belongs to: the triggering message and
    the bot's own user ([self._ctx.me]). *)
Record LCtx := mkLCtx { emojis : Emojis; message_id : Z; me : Z }.

(** [Loading.finalise]: adds [ctx.tick(True)], the check button. *)
Definition finalise (c : LCtx) (l : Loading) (react : platform)
  : list action * option exc :=
  if can_react l then
    if tick l then
      let a := AddReaction (message_id c) (check_button (emojis c)) in
      ([a], react a)
    else ([], None)
  else ([], None).

(** [Loading.__aenter__]: an [HTTPException] (including [Forbidden]) is
    swallowed, and only error code 90001 clears [can_react]; any other
    exception escapes. *)
Definition aenter (c : LCtx) (l : Loading) (react : platform)
  : list action * (Loading + exc) :=
  let a := AddReaction (message_id c) (loading (emojis c)) in
  match react a with
  | None => ([a], inl l)
  | Some (HTTPException code) =>
      ([a], inl (if Z.eqb code 90001
                 then mkLoading (prop l) (tick l) (exc_ignore l) false
                 else l))
  | Some e => ([a], inr e)
  end.

(** [self.exc_ignore and isinstance(exc, self.exc_ignore)]. *)
Definition ignorable (l : Loading) (e : option exc) : bool :=
  match exc_ignore l, e with
  | [], _ => false
  | _, None => false
  | ts, Some x => existsb (fun t => t x) ts
  end.

(** [Loading.__aexit__]: [inl true] suppresses the body's exception,
    [inl false] lets it through (the method returns [None]), [inr e] is an
    exception raised by [__aexit__] itself. *)
Definition aexit (c : LCtx) (l : Loading) (react : platform)
    (e : option exc) : list action * (bool + exc) :=
  let a := RemoveReaction (message_id c) (loading (emojis c)) (me c) in
  match react a with
  | Some err => ([a], inr err)
  | None =>
      if ignorable l e then
        let '(tr, r) := finalise c l react in
        match r with
        | Some err => ([a] ++ tr, inr err)
        | None => ([a] ++ tr, inl true)
        end
      else
        match e with
        | Some x =>
            if prop l then ([a; DispatchCommandError x], inl true)
            else
              let '(tr, r) := finalise c l react in
              match r with
              | Some err => ([a] ++ tr, inr err)
              | None => ([a] ++ tr, inl false)
              end
        | None =>
            let '(tr, r) := finalise c l react in
            match r with
            | Some err => ([a] ++ tr, inr err)
            | None => ([a] ++ tr, inl false)
            end
        end
  end.

(** [async with ctx.loading(...): body], where [body] is what the handler
    body raises ([None]: it completes).  Returns the calls made and the
    exception that escapes the [async with] statement. *)
Definition with_loading (c : LCtx) (l : Loading) (react : platform)
    (body : option exc) : list action * option exc :=
  let '(tr1, r1) := aenter c l react in
  match r1 with
  | inr e => (tr1, Some e)
  | inl l1 =>
      let '(tr2, r2) := aexit c l1 react body in
      (tr1 ++ tr2,
       match r2 with
       | inr e => Some e
       | inl true => None
       | inl false => body
       end)
  end.

End Indicator.


(* ------------------------------------------------------------------ *)
(** ** Error-detail escalation: [Context.propagate_error] *)

Module Reporter.
Import Platform.

(** A [reaction_add] event: the reacted message, the emoji, the user, and
    its arrival time counted from the start of the wait. *)
Record ReactionEvent := mkReactionEvent {
  r_message_id : Z;
  r_emoji : string;    (* str(reaction.emoji) *)
  u_id : Z;
  arrives : Q
}.

(** The check of the wait:
    [r.message.id == self.message.id and u.id in [self.author.id,
    *self.bot.owner_ids]]. *)
Definition reporter_accepts (msg_id author : Z) (owner_ids : list Z)
    (ev : ReactionEvent) : bool :=
  Z.eqb (r_message_id ev) msg_id && bool_decide (u_id ev ∈ author :: owner_ids).

(** [bot.wait_for(..., timeout=t)] over a stream in arrival order: the
    first event passing [check], if it arrives before the timeout;
    [None] is [asyncio.TimeoutError]. *)
Definition wait_for_timeout (check : ReactionEvent -> bool) (timeout : Q)
    (evs : list ReactionEvent) : option ReactionEvent :=
  match Prompt.wait_for check evs with
  | Some ev => if Qle_bool timeout (arrives ev) then None else Some ev
  | None => None
  end.

(** [Context.propagate_error(error, do_emojis)]: [msg_id] is
    [self.message.id], [me] the bot's user.  Everything after
    [do_emojis] runs under [suppress(Exception)]: a failing call ends the
    method with the calls made so far. *)
Definition propagate_error (cfg : Emojis) (msg_id author me : Z)
    (owner_ids : list Z) (error : string) (do_emojis : bool)
    (react : action -> option exc) (evs : list ReactionEvent)
  : list action :=
  if negb do_emojis then [Send error] else
  let a := AddReaction msg_id (warning_button cfg) in
  match react a with
  | Some _ => [a]
  | None =>
      match wait_for_timeout (reporter_accepts msg_id author owner_ids)
                             30 evs with
      | None => [a; RemoveReaction msg_id (warning_button cfg) me]
      | Some ev =>
          if String.eqb (r_emoji ev) (warning_button cfg)
          then [a; Send error] else [a]
      end
  end.

End Reporter.

(* ------------------------------------------------------------------ *)
(** ** Before-invoke hook: [NeoBot.before] *)

Module Hooks.
Import RateLimit Core.

(** Writes to storage and cache refreshes, in the order made. *)
Inductive db_op :=
  | DbInsert (uid : Z)
  | CacheRefresh.

(** [DbCache.refresh]: the cache is reloaded wholesale from
    [SELECT * FROM user_data], keyed by [user_id]. *)
Definition refresh (b : Bot) : Bot := mkBot (_cd b) (user_data b) (user_data b).

(** [INSERT INTO user_data (user_id) VALUES ($1)]: [None] when the
    primary key already exists ([UniqueViolationError], nothing written). *)
Definition insert_user (b : Bot) (uid : Z) : option Bot :=
  match user_data b !! uid with
  | Some _ => None
  | None => Some (mkBot (_cd b) (user_cache b) (<[uid := new_row]> (user_data b)))
  end.

(** [NeoBot.before]:
    {v
    if not self.user_cache.get(ctx.author.id):
        with suppress(asyncpg.exceptions.UniqueViolationError):
            await self.pool.execute('INSERT INTO user_data ...', ctx.author.id)
            await self.user_cache.refresh()
    v} *)
Definition before (b : Bot) (ctx : Ctx) : Bot * list db_op :=
  match user_cache b !! author ctx with
  | Some _ => (b, [])
  | None =>
      match insert_user b (author ctx) with
      | None => (b, [])
      | Some b1 => (refresh b1, [DbInsert (author ctx); CacheRefresh])
      end
  end.

End Hooks.

(* ------------------------------------------------------------------ *)
(** ** Output guard: [Context.safe_send] *)

Module SafeSend.

(** A Python [str] as its code points. *)
Definition pystr := list nat.

Definition lit (s : string) : pystr := map Ascii.nat_of_ascii (String.list_ascii_of_string s).

(** [[a-zA-Z0-9]] and [[a-zA-Z0-9_\-]]. *)
Definition is_alnum (c : nat) : bool :=
  ((48 <=? c) && (c <=? 57)) || ((65 <=? c) && (c <=? 90))
  || ((97 <=? c) && (c <=? 122)).
Definition is_tokch (c : nat) : bool := is_alnum c || (c =? 95) || (c =? 45).

(** First alternative, [[a-zA-Z0-9]{24}\.[a-zA-Z0-9]{6}\.[a-zA-Z0-9_\-]{27}],
    anchored at the start of [s] (59 characters). *)
Definition alt_bot_token (s : pystr) : bool :=
  (59 <=? length s) && forallb is_alnum (take 24 s) && (nth 24 s 0 =? 46)
  && forallb is_alnum (take 6 (drop 25 s)) && (nth 31 s 0 =? 46)
  && forallb is_tokch (take 27 (drop 32 s)).

(** Second alternative, [mfa\.[a-zA-Z0-9_\-]{84}] (88 characters). *)
Definition alt_mfa_token (s : pystr) : bool :=
  (88 <=? length s) && bool_decide (take 4 s = lit "mfa.")
  && forallb is_tokch (take 84 (drop 4 s)).

(** The alternation tried at one position, left alternative first. *)
Definition match_at (s : pystr) : option pystr :=
  if alt_bot_token s then Some (take 59 s)
  else if alt_mfa_token s then Some (take 88 s)
  else None.

(** [re.search(pattern, content)]: the leftmost match, as [match.group(0)]. *)
Fixpoint re_search (s : pystr) : option pystr :=
  match s with
  | [] => None
  | _ :: rest =>
      match match_at s with
      | Some m => Some m
      | None => re_search rest
      end
  end.

(** [s.replace(old, new)] for a non-empty [old]: every non-overlapping
    occurrence, scanning left to right ([fuel] is the length of [s]). *)
Fixpoint replace_fuel (fuel : nat) (old new s : pystr) : pystr :=
  match fuel with
  | 0 => s
  | S f =>
      match s with
      | [] => []
      | c :: rest =>
          if bool_decide (take (length old) s = old)
          then new ++ replace_fuel f old new (drop (length old) s)
          else c :: replace_fuel f old new rest
      end
  end.

Definition py_replace (s old new : pystr) : pystr :=
  replace_fuel (length s) old new s.

(** The token guard at the start of [safe_send]. *)
Definition redact (content : pystr) : pystr :=
  match re_search content with
  | Some m => py_replace content m (lit "[token omitted]")
  | None => content
  end.

(** What [safe_send] does on the network: send a message with this text,
    send a message with no text (only [kwargs]), or upload to the paste
    service. *)
Inductive net_action :=
  | SendText (t : pystr)
  | SendKwargsOnly
  | PostPaste (data : pystr).

(** [Context.safe_send(content=None, **kwargs)]; [key] is [post['key']]
    in the paste service's JSON answer. *)
Definition safe_send (content : option pystr) (key : pystr)
  : list net_action :=
  match content with
  | None | Some [] => [SendKwargsOnly]
  | Some c =>
      let c' := redact c in
      if 2000 <? length c'
      then [PostPaste c';
            SendText (lit "Output: <https://mystb.in/" ++ key ++ lit ">")]
      else [SendText c']
  end.

End SafeSend.


(* ------------------------------------------------------------------ *)
(** ** Concrete configuration used by the examples *)

Module Fixtures.
Import Platform Indicator.

(** [neo.conf['emojis']] with short stand-in names. *)
Definition test_emojis : Emojis := mkEmojis "yes" "no" "wait" "warn".

(** An invocation on message 10, the bot being user 99. *)
Definition test_ctx : LCtx := mkLCtx test_emojis 10 99.

End Fixtures.

(* ------------------------------------------------------------------ *)
(** ** Formatting helpers of [Context]: [Codeblock], [tick], [toggle], [tab] *)

Module Formatting.
Import Platform SafeSend.

Definition backtick : nat := 96.
Definition zwsp : nat := 8203.      (* \N{ZWSP}, U+200B *)
Definition newline : nat := 10.

(** [Codeblock]: the fields set by [__init__]. *)
Record Codeblock := mkCodeblock {
  lang : pystr;
  cb_safe : bool;
  content : pystr
}.

(** [Codeblock.__init__( *, content, lang=None, cb_safe=True)]:
    {v
    self.lang = lang or ''
    self.cb_safe = cb_safe
    self.content = content.replace('``', '`\N{ZWSP}`') if cb_safe else content
    v}
    [lang] is [None] or a string; [None] and [''] both give [''].
    [Context.codeblock( **kwargs)] returns [Codeblock( **kwargs)]. *)
Definition new_codeblock (c : pystr) (l : option pystr) (safe : bool)
  : Codeblock :=
  mkCodeblock (match l with Some x => x | None => [] end) safe
    (if safe then py_replace c [backtick; backtick] [backtick; zwsp; backtick]
     else c).

(** [Codeblock.__str__]: [f"```{self.lang}\n{self.content}\n```"]. *)
Definition codeblock_str (cb : Codeblock) : pystr :=
  lit "```" ++ lang cb ++ [newline] ++ content cb ++ [newline] ++ lit "```".

(** Python's [w in s] on strings: [w] occurs in [s] as a contiguous piece. *)
Definition occurs_in (w s : pystr) : Prop := exists k1 k2, s = k1 ++ w ++ k2.

(** Whether a string has two backticks at its start. *)
Definition opens_run (s : pystr) : bool :=
  match s with
  | a :: b :: _ => (a =? backtick) && (b =? backtick)
  | _ => false
  end.

(** Whether a string contains three consecutive backticks (a code fence). *)
Fixpoint has_run3 (s : pystr) : bool :=
  match s with
  | [] => false
  | a :: rest => ((a =? backtick) && opens_run rest) || has_run3 rest
  end.

(** The Python values [tick] and [toggle] are called with: booleans,
    integers, [None] and strings.  Python's [==] makes [True == 1] and
    [False == 0], and equal values are the same dict key. *)
Inductive pyobj :=
  | PyBool (b : bool)
  | PyInt (z : Z)
  | PyNone
  | PyStr (s : string).

Definition py_eq (x y : pyobj) : bool :=
  match x, y with
  | PyBool a, PyBool b => Bool.eqb a b
  | PyBool a, PyInt z | PyInt z, PyBool a => Z.eqb z (if a then 1 else 0)
  | PyInt a, PyInt b => Z.eqb a b
  | PyNone, PyNone => true
  | PyStr a, PyStr b => String.eqb a b
  | _, _ => false
  end.

(** [d.get(k, default)] on a dict literal with pairwise distinct keys. *)
Fixpoint dict_get_or {V} (d : list (pyobj * V)) (k : pyobj) (default : V)
  : V :=
  match d with
  | [] => default
  | (k', v) :: rest => if py_eq k k' then v else dict_get_or rest k default
  end.

(** The emoji entries of [neo.conf['emojis']] used by [tick] and [toggle]
    besides those of [Emojis]. *)
Record MoreEmojis := mkMoreEmojis {
  neutral_button : string;
  toggleon : string;
  toggleoff : string
}.

(** [Context.tick(opt, label=None)]:
    {v
    lookup = {True: check_button, False: x_button, None: neutral_button}
    emoji = lookup.get(opt, x_button)
    if label is None:
        return emoji
    return f'{emoji}: {label}'
    v} *)
Definition tick (cfg : Emojis) (more : MoreEmojis) (opt : pyobj)
    (label : option string) : string :=
  let lookup := [(PyBool true, check_button cfg); (PyBool false, x_button cfg);
                 (PyNone, neutral_button more)] in
  let emoji := dict_get_or lookup opt (x_button cfg) in
  match label with
  | None => emoji
  | Some l => String.append emoji (String.append ": " l)
  end.

(** [Context.toggle(opt)]:
    {v
    options = {True: toggleon, False: toggleoff, None: toggleoff}
    return options.get(opt, toggleoff)
    v} *)
Definition toggle (more : MoreEmojis) (opt : pyobj) : string :=
  let options := [(PyBool true, toggleon more); (PyBool false, toggleoff more);
                  (PyNone, toggleoff more)] in
  dict_get_or options opt (toggleoff more).

(** [s * n] for a string and an int: [n] copies, none when [n <= 0]. *)
Definition py_str_mul (s : pystr) (n : Z) : pystr :=
  concat (replicate (Z.to_nat n) s).

(** [Context.tab(repeat=1)]: [' \u200b' * repeat], a space and a zero-width space. *)
Definition tab (repeat : Z) : pystr := py_str_mul [32; zwsp] repeat.

End Formatting.


(* ================================================================== *)
(** * Properties *)

(* ------------------------------------------------------------------ *)
(** ** Global rate limit *)

Module RateLimitFacts.
Import RateLimit.
Local Open Scope Q_scope.

Example run_cooldown_three :
  (run_cooldown neo_cd [(7%Z, 100); (7%Z, (201 # 2)); (7%Z, 101)]).2
  = [Pass; Pass; Raise (CommandOnCooldown ((5 # 2) - (101 - (201 # 2))))].
Proof. reflexivity. Qed.

Example run_cooldown_two_users :
  (run_cooldown neo_cd [(7%Z, 100); (7%Z, (201 # 2)); (8%Z, (1007 # 10)); (7%Z, 101)]).2
  = [Pass; Pass; Pass; Raise (CommandOnCooldown ((5 # 2) - (101 - (201 # 2))))].
Proof. reflexivity. Qed.


Lemma run_cooldown_app (m : CooldownMapping) (l1 l2 : list (Z * Q)) :
  run_cooldown m (l1 ++ l2) =
  let '(m1, rs1) := run_cooldown m l1 in
  let '(m2, rs2) := run_cooldown m1 l2 in (m2, rs1 ++ rs2).
Proof.
  revert m. induction l1 as [|[a t] l1 IH]; intros m; simpl.
  - destruct (run_cooldown m l2); reflexivity.
  - destruct (global_cooldown m a t) as [m1 r].
    rewrite IH. destruct (run_cooldown m1 l1) as [m2 rs1].
    destruct (run_cooldown m2 l2) as [m3 rs2]. reflexivity.
Qed.

Lemma run_cooldown_cons (m : CooldownMapping) (a : Z) (t : Q)
    (l : list (Z * Q)) :
  run_cooldown m ((a, t) :: l) =
  let '(m1, r) := global_cooldown m a t in
  let '(m2, rs) := run_cooldown m1 l in (m2, r :: rs).
Proof. reflexivity. Qed.

Lemma global_cooldown_proto (m : CooldownMapping) (a : Z) (t : Q) :
  _cooldown (global_cooldown m a t).1 = _cooldown m.
Proof.
  unfold global_cooldown, get_bucket.
  destruct (_cache (verify_cache_integrity m t) !! a);
    simpl; destruct (update_rate_limit _ t) as [[r|] b'];
    try destruct (truthy_float r); reflexivity.
Qed.

(** A call by another invoker never touches this invoker's live bucket. *)
Lemma global_cooldown_other (m : CooldownMapping) (a u : Z) (t : Q)
    (b : Cooldown) :
  a <> u -> _cache m !! u = Some b -> alive t b = true ->
  _cache (global_cooldown m a t).1 !! u = Some b.
Proof.
  intros Hne Hu Ha.
  assert (Hf : _cache (verify_cache_integrity m t) !! u = Some b)
    by (apply map_lookup_filter_Some_2; assumption).
  unfold global_cooldown, get_bucket.
  destruct (_cache (verify_cache_integrity m t) !! a);
    simpl; destruct (update_rate_limit _ t) as [[r|] b'];
    try destruct (truthy_float r); simpl;
    rewrite ?lookup_insert_ne by congruence; assumption.
Qed.

Lemma run_cooldown_others (m : CooldownMapping) (u : Z) (b : Cooldown)
    (o : list (Z * Q)) :
  Forall (fun c => c.1 <> u /\ alive c.2 b = true) o ->
  _cache m !! u = Some b ->
  _cache (run_cooldown m o).1 !! u = Some b /\
  _cooldown (run_cooldown m o).1 = _cooldown m /\
  length (run_cooldown m o).2 = length o.
Proof.
  revert m. induction o as [|[a t] o IH]; intros m Ho Hu; simpl; [auto|].
  inversion Ho as [|? ? [Hne Ha] Ho']; subst.
  pose proof (global_cooldown_other m a u t b Hne Hu Ha) as Hu1.
  pose proof (global_cooldown_proto m a t) as Hp1.
  destruct (global_cooldown m a t) as [m1 r] eqn:E. simpl in *.
  destruct (IH m1 Ho' Hu1) as (H1 & H2 & H3).
  destruct (run_cooldown m1 o) as [m2 rs]. simpl in *.
  rewrite H2, Hp1. auto.
Qed.

(** Second call inside the window: the last token is spent and the window
    restarts at this call. *)
Lemma global_cooldown_second (m : CooldownMapping) (u : Z) (p t0 t : Q) :
  _cache m !! u = Some (mkCooldown 2 p t0 1 t0) -> t <= t0 + p ->
  (global_cooldown m u t).2 = Pass /\
  _cache (global_cooldown m u t).1 !! u = Some (mkCooldown 2 p t 0 t).
Proof.
  intros Hu Ht.
  assert (Hle : Qle_bool t (t0 + p) = true) by (apply Qle_bool_iff; exact Ht).
  assert (Hf : _cache (verify_cache_integrity m t) !! u
               = Some (mkCooldown 2 p t0 1 t0))
    by (apply map_lookup_filter_Some_2; [exact Hu | exact Hle]).
  unfold global_cooldown, get_bucket. rewrite Hf.
  unfold update_rate_limit, get_tokens. simpl. rewrite Hle. simpl.
  split; [reflexivity | apply lookup_insert_eq].
Qed.

(** Third call inside the window: no token left, the stage raises with
    [per - (current - window)]. *)
Lemma global_cooldown_exhausted (m : CooldownMapping) (u : Z) (p t1 t : Q) :
  _cache m !! u = Some (mkCooldown 2 p t1 0 t1) -> t1 <= t -> t - t1 < p ->
  (global_cooldown m u t).2 = Raise (CommandOnCooldown (p - (t - t1))).
Proof.
  intros Hu H1 H2.
  assert (Hle : Qle_bool t (t1 + p) = true)
    by (apply Qle_bool_iff; lra).
  assert (Hf : _cache (verify_cache_integrity m t) !! u
               = Some (mkCooldown 2 p t1 0 t1))
    by (apply map_lookup_filter_Some_2; [exact Hu | exact Hle]).
  assert (Htr : truthy_float (p - (t - t1)) = true).
  { unfold truthy_float. destruct (Qeq_bool (p - (t - t1)) 0) eqn:E; [|reflexivity].
    apply Qeq_bool_iff in E. lra. }
  unfold global_cooldown, get_bucket. rewrite Hf.
  unfold update_rate_limit, get_tokens. simpl. rewrite Hle. simpl.
  rewrite Htr. reflexivity.
Qed.

(** Every bucket in the cache is a copy of the prototype: same rate and
    period.  [update_rate_limit] keeps both. *)
Definition buckets_ok (r : nat) (p : Q) (m : CooldownMapping) : Prop :=
  _cooldown m = new_cooldown r p /\
  map_Forall (fun _ b => rate b = r /\ per b = p) (_cache m).

Lemma update_rate_limit_shape (c : Cooldown) (t : Q) :
  rate (update_rate_limit c t).2 = rate c /\ per (update_rate_limit c t).2 = per c.
Proof.
  unfold update_rate_limit.
  destruct (Nat.eqb (get_tokens c t) (rate c)); simpl;
    [destruct (Nat.eqb (get_tokens c t) 0)|destruct (Nat.eqb (get_tokens c t) 0)];
    simpl; try (destruct (Nat.eqb (Nat.pred (get_tokens c t)) 0)); simpl; auto.
Qed.

Lemma global_cooldown_buckets_ok (r : nat) (p : Q) (m : CooldownMapping)
    (a : Z) (t : Q) :
  buckets_ok r p m -> buckets_ok r p (global_cooldown m a t).1.
Proof.
  intros [Hp Hc].
  assert (Hf : map_Forall (fun _ b => rate b = r /\ per b = p)
                 (_cache (verify_cache_integrity m t))).
  { intros k b Hk. apply map_lookup_filter_Some in Hk as [Hk _]. exact (Hc k b Hk). }
  unfold global_cooldown, get_bucket.
  destruct (_cache (verify_cache_integrity m t) !! a) as [b|] eqn:E.
  - pose proof (Hf a b E) as [Hr Hpb].
    pose proof (update_rate_limit_shape b t) as [Hr' Hp'].
    destruct (update_rate_limit b t) as [[ra|] b'] eqn:U; simpl in Hr', Hp';
      try destruct (truthy_float ra); simpl;
      (split; [exact Hp|]); (apply map_Forall_insert_2; [split; congruence | exact Hf]).
  - assert (Hb : rate (copy (_cooldown m)) = r /\ per (copy (_cooldown m)) = p)
      by (rewrite Hp; split; reflexivity).
    pose proof (update_rate_limit_shape (copy (_cooldown m)) t) as [Hr' Hp'].
    simpl. destruct (update_rate_limit (copy (_cooldown m)) t) as [[ra|] b'] eqn:U;
      simpl in Hr', Hp'; rewrite Hp in Hr', Hp'; simpl in Hr', Hp';
      try destruct (truthy_float ra); simpl;
      (split; [exact Hp|]);
      (apply map_Forall_insert_2; [split; assumption|]);
      (apply map_Forall_insert_2; [exact Hb | exact Hf]).
Qed.

Lemma run_cooldown_buckets_ok (r : nat) (p : Q) (m : CooldownMapping)
    (l : list (Z * Q)) :
  buckets_ok r p m -> buckets_ok r p (run_cooldown m l).1.
Proof.
  revert m. induction l as [|[a t] l IH]; intros m Hm; simpl; [exact Hm|].
  pose proof (global_cooldown_buckets_ok r p m a t Hm) as H1.
  destruct (global_cooldown m a t) as [m1 x]. simpl in H1.
  specialize (IH m1 H1). destruct (run_cooldown m1 l). exact IH.
Qed.

(** The bucket [global_cooldown] would use for [u] at time [t] holds its
    whole allowance. *)
Definition bucket_full (m : CooldownMapping) (u : Z) (t : Q) : Prop :=
  get_tokens (get_bucket m u t).2 t = rate (get_bucket m u t).2.

(** A call on a full bucket passes, spends one of its two tokens and
    starts a new window at the call. *)
Lemma global_cooldown_full (m : CooldownMapping) (u : Z) (p t : Q) :
  buckets_ok 2 p m -> bucket_full m u t ->
  (global_cooldown m u t).2 = Pass /\
  _cache (global_cooldown m u t).1 !! u = Some (mkCooldown 2 p t 1 t).
Proof.
  intros [Hp Hc] Hfull. unfold bucket_full, global_cooldown, get_bucket in *.
  destruct (_cache (verify_cache_integrity m t) !! u) as [b|] eqn:E; simpl in *.
  - apply map_lookup_filter_Some in E as [Eb _].
    destruct (Hc u b Eb) as [Hr Hpb].
    destruct b as [rb pb wb kb lb]; simpl in Hr, Hpb, Hfull; subst rb pb.
    unfold update_rate_limit. simpl. rewrite Hfull. simpl.
    split; [reflexivity | apply lookup_insert_eq].
  - rewrite Hp in *. unfold copy, new_cooldown, update_rate_limit, get_tokens in *.
    simpl in *. destruct (Qle_bool t (0 + p)); simpl; split;
      [reflexivity | apply lookup_insert_eq | reflexivity | apply lookup_insert_eq].
Qed.

(** Claim C1.  The global rate-limit stage keeps one bucket per invoker
    ([BucketType.user]) with 2 tokens per 2.5-unit window.  Take the
    stage in any state the bot can reach (any earlier sequence of calls
    from [neo_cd]) and an invoker [u] whose bucket holds both tokens at
    [t0] (no bucket, a dead one, or one whose window has run out): three
    invocations by [u] at [t0 <= t1 <= t2] with [t2 - t0 < 1.25] give:
    the first two pass (spending both tokens), the third raises
    [CommandOnCooldown] carrying the positive retry-after
    [2.5 - (t2 - t1)].  Invocations by any other invokers interleaved
    between them (at times up to [t2]) do not change this. *)
Theorem global_cooldown_third_call_denied (hist : list (Z * Q)) (u : Z)
    (t0 t1 t2 : Q) (o1 o2 : list (Z * Q)) :
  bucket_full (run_cooldown neo_cd hist).1 u t0 ->
  t0 <= t1 -> t1 <= t2 -> t2 - t0 < 5 # 4 ->
  Forall (fun c => c.1 <> u /\ c.2 <= t2) (o1 ++ o2) ->
  exists rs1 rs2,
    length rs1 = length o1 /\ length rs2 = length o2 /\
    (run_cooldown (run_cooldown neo_cd hist).1
       ([(u, t0)] ++ o1 ++ [(u, t1)] ++ o2 ++ [(u, t2)])).2
    = [Pass] ++ rs1 ++ [Pass] ++ rs2
      ++ [Raise (CommandOnCooldown ((5 # 2) - (t2 - t1)))] /\
    0 < (5 # 2) - (t2 - t1).
Proof.
  intros Hfull H01 H12 H02 Ho.
  assert (Hok : buckets_ok 2 (5 # 2) (run_cooldown neo_cd hist).1).
  { apply run_cooldown_buckets_ok. split; [reflexivity|]. apply map_Forall_empty. }
  generalize dependent (run_cooldown neo_cd hist).1. intros m Hfull Hok.
  apply Forall_app in Ho as [Ho1 Ho2].
  cbn [app].
  (* first call *)
  rewrite run_cooldown_cons.
  destruct (global_cooldown_full m u (5 # 2) t0 Hok Hfull) as [R1 B1].
  destruct (global_cooldown m u t0) as [m1 r1]. simpl in R1, B1. subst r1.
  cbv beta iota.
  (* other invokers *)
  rewrite run_cooldown_app.
  assert (Ho1' : Forall (fun c => c.1 <> u /\
                   alive c.2 (mkCooldown 2 (5 # 2) t0 1 t0) = true) o1).
  { eapply Forall_impl; [exact Ho1|]. intros [a t] [Ha Ht]. split; [exact Ha|].
    apply Qle_bool_iff. simpl in *. lra. }
  destruct (run_cooldown_others m1 u _ o1 Ho1' B1) as (B1' & _ & L1).
  destruct (run_cooldown m1 o1) as [m2 rs1]. simpl in B1', L1.
  cbv beta iota.
  (* second call *)
  rewrite run_cooldown_cons.
  assert (Ht1 : t1 <= t0 + (5 # 2)) by lra.
  destruct (global_cooldown_second m2 u (5 # 2) t0 t1 B1' Ht1) as [R2 B2].
  destruct (global_cooldown m2 u t1) as [m3 r2]. simpl in R2, B2. subst r2.
  cbv beta iota.
  (* other invokers *)
  rewrite run_cooldown_app.
  assert (Ho2' : Forall (fun c => c.1 <> u /\
                   alive c.2 (mkCooldown 2 (5 # 2) t1 0 t1) = true) o2).
  { eapply Forall_impl; [exact Ho2|]. intros [a t] [Ha Ht]. split; [exact Ha|].
    apply Qle_bool_iff. simpl in *. lra. }
  destruct (run_cooldown_others m3 u _ o2 Ho2' B2) as (B2' & _ & L2).
  destruct (run_cooldown m3 o2) as [m4 rs2]. simpl in B2', L2.
  cbv beta iota.
  (* third call *)
  rewrite run_cooldown_cons.
  assert (Ht2 : t2 - t1 < 5 # 2) by lra.
  pose proof (global_cooldown_exhausted m4 u (5 # 2) t1 t2 B2' H12 Ht2) as R3.
  destruct (global_cooldown m4 u t2) as [m5 r3]. simpl in R3. subst r3.
  exists rs1, rs2. split; [exact L1|]. split; [exact L2|]. split; [|lra].
  reflexivity.
Qed.

(** A returning invoker: after calls at 0, 0.1 and 0.2 (the last one
    refused) the bucket is still cached at 2.7 but its window has run out;
    the next three calls at 2.7, 2.8 and 2.9 give Pass, Pass and a
    refusal, with a call by another invoker in between. *)
Lemma global_cooldown_third_call_denied_witness :
  exists rs1 rs2,
    length rs1 = 1%nat /\ length rs2 = 0%nat /\
    (run_cooldown (run_cooldown neo_cd [(7%Z, 0); (7%Z, 1 # 10); (7%Z, 2 # 10)]).1
       ([(7%Z, 27 # 10)] ++ [(8%Z, 275 # 100)] ++ [(7%Z, 28 # 10)]
        ++ [] ++ [(7%Z, 29 # 10)])).2
    = [Pass] ++ rs1 ++ [Pass] ++ rs2
      ++ [Raise (CommandOnCooldown ((5 # 2) - ((29 # 10) - (28 # 10))))] /\
    0 < (5 # 2) - ((29 # 10) - (28 # 10)).
Proof.
  apply (global_cooldown_third_call_denied
           [(7%Z, 0); (7%Z, 1 # 10); (7%Z, 2 # 10)] 7 (27 # 10) (28 # 10) (29 # 10)
           [(8%Z, 275 # 100)] []).
  - vm_compute. reflexivity.
  - apply Qle_bool_iff. reflexivity.
  - apply Qle_bool_iff. reflexivity.
  - reflexivity.
  - repeat constructor; simpl; [lia | apply Qle_bool_iff; reflexivity].
Defined.

End RateLimitFacts.

(* ------------------------------------------------------------------ *)
(** ** Blacklist stage and stage order *)

Module PipelineFacts.
Import RateLimit Core.

Lemma denied_at_cons (s : stage) (ss : list stage) (evs : list event) :
  denied_at ss evs -> denied_at (s :: ss) (passed s :: evs).
Proof.
  intros (k & s' & r & Hk & Hr & ->).
  exists (S k), s', r. split; [exact Hk|]. split; [exact Hr|]. reflexivity.
Qed.

Lemma denied_at_app_r (ss1 ss2 : list stage) (evs : list event) :
  denied_at ss2 evs -> denied_at (ss1 ++ ss2) (map passed ss1 ++ evs).
Proof.
  induction ss1 as [|s ss1 IH]; intros H; simpl; [exact H|].
  apply denied_at_cons, IH, H.
Qed.

Lemma denied_at_app_l (ss1 ss2 : list stage) (evs : list event) :
  denied_at ss1 evs -> denied_at (ss1 ++ ss2) evs.
Proof.
  intros (k & s & r & Hk & Hr & ->).
  pose proof (lookup_lt_Some _ _ _ Hk) as Hlt.
  exists k, s, r. split; [rewrite lookup_app_l by lia; exact Hk|].
  split; [exact Hr|]. rewrite take_app_le by lia. reflexivity.
Qed.

(** [async_all] either lets every check pass, or stops right after the
    first one that does not pass. *)
Lemma async_all_shape (fs : list (stage * check)) (b : Bot) (ctx : Ctx)
    (tr : list event) :
  let '(b', tr', r) := async_all fs b ctx tr in
  (r = inl true /\ tr' = tr ++ map passed fs.*1) \/
  (r <> inl true /\ exists evs, tr' = tr ++ evs /\ denied_at fs.*1 evs).
Proof.
  revert b tr. induction fs as [|[lbl f] fs IH]; intros b tr; simpl.
  - left. rewrite app_nil_r. auto.
  - destruct (f b ctx) as [b1 r]. destruct r as [| |e].
    + specialize (IH b1 (tr ++ [Ran lbl Pass])).
      destruct (async_all fs b1 ctx (tr ++ [Ran lbl Pass])) as [[b' tr'] r'].
      destruct IH as [[-> ->] | [Hr (evs & -> & Hd)]].
      * left. split; [reflexivity|]. rewrite <- app_assoc. reflexivity.
      * right. split; [exact Hr|]. exists (passed lbl :: evs).
        split; [rewrite <- app_assoc; reflexivity|].
        apply denied_at_cons, Hd.
    + right. split; [discriminate|]. exists [Ran lbl Falsy].
      split; [reflexivity|]. exists 0, lbl, Falsy.
      split; [reflexivity|]. split; [discriminate|reflexivity].
    + right. split; [discriminate|]. exists [Ran lbl (Raise e)].
      split; [reflexivity|]. exists 0, lbl, (Raise e).
      split; [reflexivity|]. split; [discriminate|reflexivity].
Qed.

Lemma check_order_eq (cmd : Command) :
  check_order cmd =
  check_once.*1 ++ global_checks.*1 ++ (cog_checks cmd).*1
  ++ (command_checks cmd).*1.
Proof.
  unfold check_order, command_checks, cog_checks.
  rewrite fst_zip by (rewrite length_map, length_seq; lia).
  destruct (cog_check cmd); reflexivity.
Qed.

(** The trace of an invocation: every check passes and the executor
    runs, or the trace stops at the first stage that does not pass. *)
Lemma invoke_order (cmd : Command) (b : Bot) (ctx : Ctx) :
  let '(_, tr, out) := invoke cmd b ctx in
  tr = map passed (check_order cmd) ++ [Executed] \/
  (denied_at (check_order cmd) tr /\ exists e, out = Errored e).
Proof.
  unfold invoke. rewrite check_order_eq.
  pose proof (async_all_shape check_once b ctx []) as S1.
  destruct (async_all check_once b ctx []) as [[b1 tr1] r1].
  destruct S1 as [[-> ->] | [Hr1 (evs1 & -> & Hd1)]].
  2:{ destruct r1 as [[|]|e]; [contradiction| |]; cbv beta iota; right;
      (split; [apply denied_at_app_l; exact Hd1 | eexists; reflexivity]). }
  cbv beta iota. unfold command_can_run.
  pose proof (async_all_shape global_checks b1 ctx
                ([] ++ map passed check_once.*1)) as S2.
  destruct (async_all global_checks b1 ctx _) as [[b2 tr2] r2].
  destruct S2 as [[-> ->] | [Hr2 (evs2 & -> & Hd2)]].
  2:{ destruct r2 as [[|]|e]; [contradiction| |]; cbv beta iota; right;
      (split; [|eexists; reflexivity]);
      rewrite app_nil_l; apply denied_at_app_r, denied_at_app_l, Hd2. }
  cbv beta iota.
  pose proof (async_all_shape (cog_checks cmd) b2 ctx
                (([] ++ map passed check_once.*1)
                 ++ map passed global_checks.*1)) as S3.
  destruct (async_all (cog_checks cmd) b2 ctx _) as [[b3 tr3] r3].
  destruct S3 as [[-> ->] | [Hr3 (evs3 & -> & Hd3)]].
  2:{ destruct r3 as [[|]|e]; [contradiction| |]; cbv beta iota; right;
      (split; [|eexists; reflexivity]);
      rewrite app_nil_l, <- app_assoc;
      apply denied_at_app_r, denied_at_app_r, denied_at_app_l, Hd3. }
  cbv beta iota.
  pose proof (async_all_shape (command_checks cmd) b3 ctx
                ((([] ++ map passed check_once.*1)
                  ++ map passed global_checks.*1)
                 ++ map passed (cog_checks cmd).*1)) as S4.
  destruct (async_all (command_checks cmd) b3 ctx _) as [[b4 tr4] r4].
  destruct S4 as [[-> ->] | [Hr4 (evs4 & -> & Hd4)]].
  - cbv beta iota. destruct (callback cmd b4 ctx) as [b5 e]. left.
    rewrite app_nil_l, !map_app, <- !app_assoc. reflexivity.
  - destruct r4 as [[|]|e]; [contradiction| |]; cbv beta iota; right;
      (split; [|eexists; reflexivity]);
      rewrite app_nil_l, <- !app_assoc;
      apply denied_at_app_r, denied_at_app_r, denied_at_app_r, Hd4.
Qed.

(** When the rate-limit stage does not pass, nothing else runs. *)
Lemma invoke_cooldown_denied (cmd : Command) (b : Bot) (ctx : Ctx) :
  (global_cooldown (_cd b) (author ctx) (now ctx)).2 <> Pass ->
  let '(_, tr, out) := invoke cmd b ctx in
  exists r, tr = [Ran StageCooldown r] /\ r <> Pass /\
            exists e, out = Errored e.
Proof.
  unfold invoke, async_all, check_once, global_cooldown_check.
  destruct (global_cooldown (_cd b) (author ctx) (now ctx)) as [cd' r].
  simpl. intros H. destruct r as [| |e]; [contradiction| |];
    eexists; (split; [reflexivity|]); (split; [exact H|]);
    eexists; reflexivity.
Qed.

(** Claim C2.  For every invocation the checks run strictly in the order
    global rate limit, blacklist, cog check, command checks; either all of
    them pass and the executor runs, or the trace stops at the first stage
    that denies (it is the last event, every earlier stage passed, the
    executor never runs, and the invocation ends in an error).  In
    particular, when the rate-limit stage denies, it is the only stage
    evaluated. *)
Theorem invoke_stages_in_order (cmd : Command) (b : Bot) (ctx : Ctx) :
  let '(_, tr, out) := invoke cmd b ctx in
  (tr = map passed (check_order cmd) ++ [Executed] \/
   (denied_at (check_order cmd) tr /\ exists e, out = Errored e)) /\
  ((global_cooldown (_cd b) (author ctx) (now ctx)).2 <> Pass ->
   exists r, tr = [Ran StageCooldown r] /\ r <> Pass /\
             exists e, out = Errored e).
Proof.
  pose proof (invoke_order cmd b ctx) as H1.
  pose proof (invoke_cooldown_denied cmd b ctx) as H2.
  destruct (invoke cmd b ctx) as [[b' tr] out].
  split; [exact H1 | exact H2].
Qed.

(** Claim C3.  The blacklist stage leaves the whole bot state unchanged; it
    raises [Blacklisted] exactly when the invoker has a cached profile whose
    [_blacklisted] column is [True], and passes otherwise (no cached
    profile, or a column that is False or NULL). *)
Theorem check_blacklist_spec (b : Bot) (ctx : Ctx) :
  (check_blacklist b ctx).1 = b /\
  ((check_blacklist b ctx).2 = Raise Blacklisted <->
   exists p, user_cache b !! author ctx = Some p /\ _blacklisted p = Some true) /\
  ((check_blacklist b ctx).2 = Pass <->
   ~ exists p, user_cache b !! author ctx = Some p /\
               _blacklisted p = Some true).
Proof.
  unfold check_blacklist.
  destruct (user_cache b !! author ctx) as [[v]|] eqn:E.
  - destruct v as [[|]|]; simpl.
    + split; [reflexivity|]. split; split.
      * intros _. eexists; split; reflexivity.
      * intros _. reflexivity.
      * discriminate.
      * intros H. exfalso. apply H. eexists; split; reflexivity.
    + split; [reflexivity|]. split; split.
      * discriminate.
      * intros (q & Hq & Hb). inversion Hq; subst.
        discriminate.
      * intros _ (q & Hq & Hb). inversion Hq; subst.
        discriminate.
      * intros _. reflexivity.
    + split; [reflexivity|]. split; split.
      * discriminate.
      * intros (q & Hq & Hb). inversion Hq; subst.
        discriminate.
      * intros _ (q & Hq & Hb). inversion Hq; subst.
        discriminate.
      * intros _. reflexivity.
  - simpl. split; [reflexivity|]. split; split.
    + discriminate.
    + intros (q & Hq & _). discriminate.
    + intros _ (q & Hq & _). discriminate.
    + intros _. reflexivity.
Qed.

End PipelineFacts.

(* ------------------------------------------------------------------ *)
(** ** Prefix resolution *)

Module PrefixFacts.
Import Prefix.

(** Claim C4 does not hold as stated: a guild whose cached override is the
    empty list gets only the two mention prefixes, not the default set
    (mentions and ['n/']). *)
Lemma get_prefix_empty_override_not_default :
  get_prefix (mkPBot false 42 {[1%Z := mkGuildRow (Some (PList []))]})
             (mkMessage (Some 1%Z))
  = Prefixes (when_mentioned 42) /\
  get_prefix (mkPBot false 42 {[1%Z := mkGuildRow (Some (PList []))]})
             (mkMessage (Some 1%Z))
  <> get_prefix (mkPBot false 42 ∅) (mkMessage None).
Proof.
  split; [reflexivity|]. vm_compute. congruence.
Qed.

Lemma list_of_set_elem (l : list string) (x : string) :
  x ∈ list_of_set l <-> x ∈ l.
Proof. unfold list_of_set. apply elem_of_remove_dups. Qed.

(** Claim C4, as the code does it.  While the bot is open: a direct
    message, a guild with no cached row, or a row without a ['prefixes']
    key give the default list (the two mention prefixes, then ['n/']); a
    row whose ['prefixes'] is a list [l] gives the two mention prefixes
    followed by the distinct elements of [l], with no fallback to ['n/']
    when [l] is empty; the result is never empty. *)
Theorem get_prefix_spec (bot : PBot) (message : Message) :
  is_closed bot = false ->
  ((guild message = None \/
    (exists g, guild message = Some g /\
       (guild_cache bot !! g = None \/
        exists row, guild_cache bot !! g = Some row /\ prefixes row = None))) ->
   get_prefix bot message
   = Prefixes (when_mentioned (bot_user_id bot) ++ ["n/"])) /\
  (forall g row l,
   guild message = Some g -> guild_cache bot !! g = Some row ->
   prefixes row = Some (PList l) ->
   exists ps, get_prefix bot message = Prefixes ps /\
     ps = when_mentioned (bot_user_id bot) ++ list_of_set l /\
     ps <> [] /\
     (forall x, x ∈ ps <-> x ∈ when_mentioned (bot_user_id bot) \/ x ∈ l)).
Proof.
  intros Hopen. unfold get_prefix. rewrite Hopen. split.
  - intros [Hg | (g & Hg & [Hc | (row & Hc & Hp)])]; rewrite Hg;
      [reflexivity | rewrite Hc; reflexivity | rewrite Hc, Hp; reflexivity].
  - intros g row l Hg Hc Hp. rewrite Hg, Hc, Hp.
    eexists. split; [reflexivity|]. split; [reflexivity|].
    split; [unfold when_mentioned_or; simpl; discriminate|].
    intros x. unfold when_mentioned_or.
    rewrite elem_of_app, list_of_set_elem. reflexivity.
Qed.

Lemma get_prefix_spec_witness :
  is_closed (mkPBot false 42 ∅) = false /\
  get_prefix (mkPBot false 42 ∅) (mkMessage None)
  = Prefixes (when_mentioned 42 ++ ["n/"]).
Proof.
  split; [reflexivity|].
  apply (get_prefix_spec (mkPBot false 42 ∅) (mkMessage None)); [reflexivity|].
  left. reflexivity.
Defined.

End PrefixFacts.

(* ------------------------------------------------------------------ *)
(** ** Confirmation prompt *)

Module PromptFacts.
Import Platform Prompt.

Lemma dict_of_two {V} (k1 k2 : string) (v1 v2 : V) :
  k1 <> k2 -> dict_of [(k1, v1); (k2, v2)] = [(k1, v1); (k2, v2)].
Proof.
  intros Hne. unfold dict_of. simpl.
  destruct (String.eqb k2 k1) eqn:E; [|reflexivity].
  apply String.eqb_eq in E. congruence.
Qed.

Lemma wait_for_skip {A} (check : A -> bool) (pre rest : list A) :
  Forall (fun q => check q = false) pre ->
  wait_for check (pre ++ rest) = wait_for check rest.
Proof.
  induction 1 as [|q pre Hq _ IH]; simpl; [reflexivity|].
  rewrite Hq. exact IH.
Qed.

(** Claim C5.  With distinct accept/reject markers: payloads that are not
    the invoker's accept/reject marker on the prompt message are skipped
    (while only such payloads arrive the prompt keeps waiting and edits
    nothing); at the first payload that is, the prompt message is edited
    exactly once and the call returns [true] for the accept marker and
    [false] for the reject marker. *)
Theorem prompt_resolves (cfg : Emojis) (author msg_id : Z) (message : string)
    (pre : list Payload) (p : Payload) (post : list Payload) :
  check_button cfg <> x_button cfg ->
  Forall (fun q => prompt_accepts cfg author msg_id q = false) pre ->
  prompt_accepts cfg author msg_id p = true ->
  prompt cfg author msg_id message pre
  = ([Send message; AddReaction msg_id (check_button cfg);
      AddReaction msg_id (x_button cfg)], None) /\
  prompt cfg author msg_id message (pre ++ p :: post)
  = ([Send message; AddReaction msg_id (check_button cfg);
      AddReaction msg_id (x_button cfg);
      Edit msg_id (if bool_decide (p_emoji p = check_button cfg)
                   then "Confirmed!" else "Cancelled!")],
     Some (bool_decide (p_emoji p = check_button cfg))) /\
  (p_emoji p = check_button cfg \/ p_emoji p = x_button cfg).
Proof.
  intros Hne Hpre Hp.
  assert (Hpe : p_emoji p = check_button cfg \/ p_emoji p = x_button cfg).
  { unfold prompt_accepts in Hp. apply andb_prop in Hp as [Hp _].
    apply andb_prop in Hp as [Hp _]. apply bool_decide_eq_true in Hp.
    rewrite elem_of_cons, elem_of_cons in Hp.
    destruct Hp as [H|[H|H]]; [left|right|apply not_elem_of_nil in H]; tauto. }
  unfold prompt. rewrite (dict_of_two _ _ _ _ Hne). simpl.
  fold (prompt_accepts cfg author msg_id).
  split; [|split; [|exact Hpe]].
  - rewrite <- (app_nil_r pre), wait_for_skip by exact Hpre. reflexivity.
  - rewrite wait_for_skip by exact Hpre. simpl. rewrite Hp.
    destruct Hpe as [He|He]; rewrite He.
    + rewrite String.eqb_refl, bool_decide_eq_true_2 by reflexivity.
      reflexivity.
    + assert (E : String.eqb (x_button cfg) (check_button cfg) = false)
        by (apply String.eqb_neq; congruence).
      rewrite E, String.eqb_refl, bool_decide_eq_false_2 by congruence.
      reflexivity.
Qed.

Lemma prompt_resolves_witness :
  prompt (mkEmojis "yes" "no" "wait" "warn") 5 9 "Sure?"
    [mkPayload "yes" 6 9; mkPayload "ok" 5 9; mkPayload "no" 5 9]
  = ([Send "Sure?"; AddReaction 9 "yes"; AddReaction 9 "no";
      Edit 9 "Cancelled!"], Some false).
Proof.
  destruct (prompt_resolves (mkEmojis "yes" "no" "wait" "warn") 5 9 "Sure?"
              [mkPayload "yes" 6 9; mkPayload "ok" 5 9] (mkPayload "no" 5 9) [])
    as (_ & H & _).
  - discriminate.
  - repeat constructor.
  - reflexivity.
  - exact H.
Defined.

End PromptFacts.

(* ------------------------------------------------------------------ *)
(** ** Loading indicator *)

Module IndicatorFacts.
Import Platform Indicator Fixtures.

(** Claim C6 does not hold as stated.  When adding the loading marker is
    refused with 50013 (Missing Permissions) the error is swallowed but
    [can_react] stays set: the success marker is still attempted, and its
    refusal escapes and fails the invocation.  When the refusal carries
    90001, the removal of the loading marker is still requested. *)
Lemma loading_permission_denied_not_noop :
  with_loading test_ctx (new_loading true true [])
    (fun a => match a with
              | AddReaction _ _ => Some (HTTPException 50013)
              | _ => None
              end) None
  = ([AddReaction 10 "wait"; RemoveReaction 10 "wait" 99;
      AddReaction 10 "yes"], Some (HTTPException 50013)) /\
  with_loading test_ctx (new_loading true true [])
    (fun a => match a with
              | AddReaction _ e =>
                  if String.eqb e "wait" then Some (HTTPException 90001)
                  else None
              | _ => None
              end) None
  = ([AddReaction 10 "wait"; RemoveReaction 10 "wait" 99], None).
Proof. split; reflexivity. Qed.

(** Claim C6, as the code does it.  If adding the loading marker fails
    with error code 90001, the success-marker step is skipped whatever the
    body does; the removal of the loading marker is still requested, and
    when that request succeeds the indicator raises nothing of its own
    (what escapes is the body's exception, under the usual rule).  An
    [HTTPException] with any other code is also swallowed on entry but
    leaves the success-marker step enabled. *)
Theorem loading_blocked_reaction (c : LCtx) (p t : bool)
    (ign : list exc_type) (react : platform) (body : option exc) :
  react (RemoveReaction (message_id c) (loading (emojis c)) (me c)) = None ->
  (react (AddReaction (message_id c) (loading (emojis c)))
     = Some (HTTPException 90001) ->
   with_loading c (new_loading p t ign) react body
   = ([AddReaction (message_id c) (loading (emojis c));
       RemoveReaction (message_id c) (loading (emojis c)) (me c)]
      ++ match body with
         | Some x => if ignorable (new_loading p t ign) body then []
                     else if p then [DispatchCommandError x] else []
         | None => []
         end,
      match body with
      | Some x => if ignorable (new_loading p t ign) body then None
                  else if p then None else Some x
      | None => None
      end)) /\
  (forall code, code <> 90001%Z ->
   react (AddReaction (message_id c) (loading (emojis c)))
     = Some (HTTPException code) ->
   with_loading c (new_loading p true ign) react None
   = ([AddReaction (message_id c) (loading (emojis c));
       RemoveReaction (message_id c) (loading (emojis c)) (me c);
       AddReaction (message_id c) (check_button (emojis c))],
      react (AddReaction (message_id c) (check_button (emojis c))))).
Proof.
  intros Hrm. split.
  - intros Hadd. unfold with_loading, aenter. rewrite Hadd. simpl.
    unfold aexit. rewrite Hrm.
    destruct body as [x|]; unfold ignorable; simpl;
      destruct ign as [|i ign]; simpl; try reflexivity;
      try (destruct (i x || existsb (fun t0 => t0 x) ign));
      destruct p; reflexivity.
  - intros code Hcode Hadd. unfold with_loading, aenter. rewrite Hadd.
    apply Z.eqb_neq in Hcode. rewrite Hcode. simpl.
    unfold aexit. rewrite Hrm. unfold ignorable. simpl.
    destruct ign; simpl;
      destruct (react (AddReaction (message_id c) (check_button (emojis c))));
      reflexivity.
Qed.

Lemma loading_blocked_reaction_witness :
  with_loading test_ctx (new_loading true true [])
    (fun a => match a with
              | AddReaction _ e =>
                  if String.eqb e "wait" then Some (HTTPException 90001)
                  else None
              | _ => None
              end) (Some (OtherExc 3))
  = ([AddReaction 10 "wait"; RemoveReaction 10 "wait" 99;
      DispatchCommandError (OtherExc 3)], None).
Proof.
  apply (loading_blocked_reaction test_ctx true true []
           (fun a => match a with
                     | AddReaction _ e =>
                         if String.eqb e "wait" then Some (HTTPException 90001)
                         else None
                     | _ => None
                     end) (Some (OtherExc 3))); reflexivity.
Defined.




End IndicatorFacts.

(* ------------------------------------------------------------------ *)
(** ** Error-detail escalation *)

Module ReporterFacts.
Import Platform Prompt Reporter Fixtures.
Local Open Scope Q_scope.

(** Claim C8 does not hold as stated: the wait ends at the first reaction
    by the invoker on the message, whatever its emoji.  Here the invoker
    first reacts with another marker and then, still inside the window,
    with the warning marker: the error detail is never sent and the
    warning marker stays. *)
Lemma propagate_error_other_marker_first :
  propagate_error test_emojis 10 5 99 [1%Z] "boom" true (fun _ => None)
    [mkReactionEvent 10 "ok" 5 1; mkReactionEvent 10 "warn" 5 2]
  = [AddReaction 10 "warn"].
Proof. reflexivity. Qed.

(** Claim C8, as the code does it.  Once the warning marker is attached,
    reactions on other messages or by other users are skipped; the first
    reaction on the message by the invoker or an owner, if it arrives
    within 30 time units, ends the wait: the error is sent when its emoji
    is the warning marker, nothing happens otherwise.  When no such
    reaction arrives within 30 time units, the warning marker is removed
    and nothing else happens. *)
Theorem propagate_error_spec (cfg : Emojis) (msg author me : Z)
    (owners : list Z) (error : string) (react : action -> option exc)
    (pre : list ReactionEvent) (ev : ReactionEvent)
    (post : list ReactionEvent) :
  react (AddReaction msg (warning_button cfg)) = None ->
  Forall (fun e => reporter_accepts msg author owners e = false) pre ->
  (reporter_accepts msg author owners ev = true -> arrives ev < 30 ->
   propagate_error cfg msg author me owners error true react (pre ++ ev :: post)
   = [AddReaction msg (warning_button cfg)]
     ++ (if bool_decide (r_emoji ev = warning_button cfg)
         then [Send error] else [])) /\
  (reporter_accepts msg author owners ev = true -> 30 <= arrives ev ->
   propagate_error cfg msg author me owners error true react (pre ++ ev :: post)
   = [AddReaction msg (warning_button cfg);
      RemoveReaction msg (warning_button cfg) me]) /\
  propagate_error cfg msg author me owners error true react pre
  = [AddReaction msg (warning_button cfg);
     RemoveReaction msg (warning_button cfg) me].
Proof.
  intros Hadd Hpre. unfold propagate_error, wait_for_timeout. simpl.
  rewrite Hadd. split; [|split].
  - intros Hev Ht. rewrite PromptFacts.wait_for_skip by exact Hpre.
    simpl. rewrite Hev.
    assert (Hq : Qle_bool 30 (arrives ev) = false).
    { destruct (Qle_bool 30 (arrives ev)) eqn:E; [|reflexivity].
      apply Qle_bool_iff in E. lra. }
    rewrite Hq.
    destruct (String.eqb (r_emoji ev) (warning_button cfg)) eqn:E.
    + apply String.eqb_eq in E. rewrite bool_decide_eq_true_2 by exact E.
      reflexivity.
    + apply String.eqb_neq in E. rewrite bool_decide_eq_false_2 by exact E.
      reflexivity.
  - intros Hev Ht. rewrite PromptFacts.wait_for_skip by exact Hpre.
    simpl. rewrite Hev.
    assert (Hq : Qle_bool 30 (arrives ev) = true) by (apply Qle_bool_iff; exact Ht).
    rewrite Hq. reflexivity.
  - rewrite <- (app_nil_r pre), PromptFacts.wait_for_skip by exact Hpre.
    reflexivity.
Qed.

Lemma propagate_error_spec_witness :
  propagate_error test_emojis 10 5 99 [1%Z] "boom" true (fun _ => None)
    [mkReactionEvent 11 "warn" 5 1; mkReactionEvent 10 "warn" 7 2;
     mkReactionEvent 10 "warn" 1 3]
  = [AddReaction 10 "warn"; Send "boom"].
Proof.
  destruct (propagate_error_spec test_emojis 10 5 99 [1%Z] "boom"
              (fun _ => None)
              [mkReactionEvent 11 "warn" 5 1; mkReactionEvent 10 "warn" 7 2]
              (mkReactionEvent 10 "warn" 1 3) [])
    as (H & _ & _).
  - reflexivity.
  - repeat constructor.
  - exact (H eq_refl eq_refl).
Defined.

End ReporterFacts.

(* ------------------------------------------------------------------ *)
(** ** Before-invoke hook *)

Module HookFacts.
Import RateLimit Core Hooks.

(** Claim C9.  Every write the before-invoke hook makes to [user_data] is
    immediately followed by a wholesale refresh of the user cache, after
    which the cache equals storage; storage changes only through such a
    write, and only for an invoker absent from the cache. *)
Theorem before_refreshes_after_write (b : Bot) (ctx : Ctx) :
  let '(b', ops) := before b ctx in
  (forall i u, ops !! i = Some (DbInsert u) -> ops !! S i = Some CacheRefresh) /\
  (user_data b' <> user_data b ->
   user_cache b !! author ctx = None /\
   ops = [DbInsert (author ctx); CacheRefresh]) /\
  (DbInsert (author ctx) ∈ ops ->
   user_data b' = <[author ctx := new_row]> (user_data b) /\
   user_cache b' = user_data b') /\
  _cd b' = _cd b.
Proof.
  unfold before, insert_user.
  destruct (user_cache b !! author ctx) as [p|] eqn:Ec.
  - split; [intros i u H; rewrite lookup_nil in H; discriminate|].
    split; [intros H; contradiction|].
    split; [intros H; apply elem_of_nil in H; contradiction|reflexivity].
  - destruct (user_data b !! author ctx) as [q|] eqn:Ed.
    + split; [intros i u H; rewrite lookup_nil in H; discriminate|].
      split; [intros H; contradiction|].
      split; [intros H; apply elem_of_nil in H; contradiction|reflexivity].
    + simpl. split.
      { intros i u H. destruct i as [|[|i]]; simpl in H;
          [reflexivity | discriminate | rewrite lookup_nil in H; discriminate]. }
      split; [intros _; split; reflexivity|].
      split; [intros _; split; reflexivity|reflexivity].
Qed.

End HookFacts.

(* ------------------------------------------------------------------ *)
(** ** Output guard *)

Module SafeSendFacts.
Import SafeSend.

Example redact_bot_token :
  redact (lit "x aaaaaaaaaaaaaaaaaaaaaaaa.bbbbbb.ccccccccccccccccccccccccccc y")
  = lit "x [token omitted] y".
Proof. reflexivity. Qed.

Lemma length_output_line (key : pystr) :
  length (lit "Output: <https://mystb.in/" ++ key ++ lit ">")
  = (27 + length key)%nat.
Proof. rewrite !length_app. simpl. lia. Qed.

(** Claim C10.  With a paste key of at most 1973 characters, no text sent
    by [safe_send] is longer than 2000 characters: a non-empty content
    whose redacted form (the first token match replaced by
    ['[token omitted]']) has at most 2000 characters is sent as that
    redacted form; a longer one is uploaded to the paste service and only
    the line ['Output: <https://mystb.in/KEY>'] is sent. *)
Theorem safe_send_bounded (content : option pystr) (key : pystr) :
  (length key <= 1973)%nat ->
  (forall t, In (SendText t) (safe_send content key) -> (length t <= 2000)%nat) /\
  (forall c, content = Some c -> c <> [] ->
   ((length (redact c) <= 2000)%nat ->
    safe_send content key = [SendText (redact c)]) /\
   ((2000 < length (redact c))%nat ->
    safe_send content key
    = [PostPaste (redact c);
       SendText (lit "Output: <https://mystb.in/" ++ key ++ lit ">")])).
Proof.
  intros Hkey. split.
  - intros t Ht. unfold safe_send in Ht.
    destruct content as [[|x c]|]; cbv beta iota in Ht.
    + destruct Ht as [H|H]; [discriminate|contradiction].
    + destruct (2000 <? length (redact (x :: c))) eqn:E.
      * destruct Ht as [H|[H|H]]; [discriminate| |contradiction].
        injection H as <-. simpl. rewrite length_app. simpl. lia.
      * destruct Ht as [H|H]; [|contradiction].
        injection H as <-. apply Nat.ltb_ge in E. exact E.
    + destruct Ht as [H|H]; [discriminate|contradiction].
  - intros c -> Hc. destruct c as [|x c]; [contradiction|]. simpl.
    split; intros Hl.
    + apply Nat.ltb_ge in Hl. rewrite Hl. reflexivity.
    + apply Nat.ltb_lt in Hl. rewrite Hl. reflexivity.
Qed.

Lemma safe_send_bounded_witness :
  safe_send (Some (lit "hello")) (lit "abcdef") = [SendText (lit "hello")].
Proof.
  destruct (safe_send_bounded (Some (lit "hello")) (lit "abcdef"))
    as [_ H]; [simpl; lia|].
  destruct (H (lit "hello") eq_refl) as [H1 _]; [discriminate|].
  rewrite H1; [reflexivity | simpl; lia].
Defined.

End SafeSendFacts.

(* ------------------------------------------------------------------ *)
(** ** Formatting helpers *)

Module FormattingFacts.
Import Platform SafeSend Formatting.

Lemma opens_run_app_newline (x y : pystr) :
  opens_run (x ++ newline :: y) = opens_run x.
Proof.
  destruct x as [|a [|b x]]; simpl; [destruct y | apply andb_false_r |];
    reflexivity.
Qed.

(** A newline separates the runs on both of its sides. *)
Lemma has_run3_app_newline (x y : pystr) :
  has_run3 (x ++ newline :: y) = has_run3 x || has_run3 y.
Proof.
  induction x as [|a x IH]; [reflexivity|].
  simpl. rewrite opens_run_app_newline, IH. destruct (_ && _), (has_run3 x); reflexivity.
Qed.

(** [has_run3 s] holds exactly when ["```"] occurs in [s]. *)
Lemma has_run3_infix (s : pystr) :
  has_run3 s = true <-> occurs_in [backtick; backtick; backtick] s.
Proof.
  split.
  - induction s as [|a s IH]; [discriminate|]. simpl. intros H.
    apply orb_true_iff in H as [H|H].
    + destruct s as [|b [|c s]]; simpl in H; [(rewrite andb_false_r in H; discriminate) ..|].
      apply andb_true_iff in H as [Ha Hbc]. apply andb_true_iff in Hbc as [Hb Hc].
      apply Nat.eqb_eq in Ha, Hb, Hc. subst. exists [], s. reflexivity.
    + destruct (IH H) as (k1 & k2 & ->). exists (a :: k1), k2. reflexivity.
  - intros (k1 & k2 & ->). induction k1 as [|a k1 IH]; [reflexivity|].
    change (has_run3 (a :: (k1 ++ [backtick; backtick; backtick] ++ k2)) = true).
    cbn [has_run3]. rewrite IH. apply orb_true_r.
Qed.

(** The first element is kept by a replacement whose old and new texts
    start with the same character. *)
Lemma replace_fuel_head (f : nat) (old new s : pystr) :
  head new = head old ->
  head (replace_fuel f old new s) = head s.
Proof.
  intros Hh. revert s. induction f as [|f IH]; intros s; [reflexivity|].
  destruct s as [|c rest]; [reflexivity|]. simpl.
  case_bool_decide as Hm; [|reflexivity].
  destruct old as [|o old].
  - destruct new; [|discriminate]. simpl. rewrite IH. reflexivity.
  - destruct new as [|n new]; [discriminate|]. simpl in *.
    injection Hm as Hc _. congruence.
Qed.

(** After [replace('``', '`\N{ZWSP}`')] no ["```"] is left, and the result
    does not start with ["``"]. *)
Lemma escape_no_run3 (f : nat) (s : pystr) :
  (length s <= f)%nat ->
  has_run3 (replace_fuel f [backtick; backtick] [backtick; zwsp; backtick] s)
    = false /\
  opens_run (replace_fuel f [backtick; backtick] [backtick; zwsp; backtick] s)
    = false.
Proof.
  revert s. induction f as [|f IH]; intros s Hl.
  - destruct s; [split; reflexivity | simpl in Hl; lia].
  - destruct s as [|c rest]; [split; reflexivity|]. simpl.
    case_bool_decide as Hm.
    + destruct rest as [|d rest]; [discriminate|]. simpl in Hm.
      injection Hm as -> ->. simpl in Hl.
      destruct (IH rest ltac:(lia)) as [H1 H2].
      simpl. rewrite drop_0.
      set (o := replace_fuel f _ _ rest) in *. simpl.
      rewrite H1, H2. split; reflexivity.
    + destruct (IH rest ltac:(simpl in Hl; lia)) as [H1 H2].
      pose proof (replace_fuel_head f [backtick; backtick]
                    [backtick; zwsp; backtick] rest eq_refl) as Hh.
      set (o := replace_fuel f _ _ rest) in *. simpl. rewrite H1.
      destruct (c =? backtick) eqn:Ec; [|split; [reflexivity|]].
      * apply Nat.eqb_eq in Ec. subst c.
        destruct rest as [|d rest].
        { destruct o; [split; reflexivity|discriminate]. }
        destruct o as [|x o]; [discriminate|]. simpl in Hh. injection Hh as ->.
        assert (Hd : (d =? backtick) = false).
        { apply Nat.eqb_neq. intros ->. apply Hm. reflexivity. }
        destruct o; simpl; rewrite ?Hd; split; reflexivity.
      * destruct o; reflexivity.
Qed.

(** Deleting the zero-width spaces undoes the escaping of a text that had
    none. *)
Lemma escape_filter (f : nat) (s : pystr) :
  (length s <= f)%nat -> zwsp ∉ s ->
  List.filter (fun x => negb (x =? zwsp))
    (replace_fuel f [backtick; backtick] [backtick; zwsp; backtick] s) = s.
Proof.
  revert s. induction f as [|f IH]; intros s Hl Hz.
  - destruct s; [reflexivity | simpl in Hl; lia].
  - destruct s as [|c rest]; [reflexivity|]. simpl.
    assert (Hc : (c =? zwsp) = false)
      by (apply Nat.eqb_neq; intros ->; apply Hz; left).
    assert (Hr : zwsp ∉ rest) by (intros H; apply Hz; right; exact H).
    case_bool_decide as Hm.
    + destruct rest as [|d rest]; [discriminate|]. simpl in Hm.
      injection Hm as -> ->.
      assert (Hr' : zwsp ∉ rest) by (intros H; apply Hr; right; exact H).
      simpl in Hl. change (drop 1 (backtick :: rest)) with rest.
      simpl. rewrite IH by (auto; lia). reflexivity.
    + simpl. rewrite Hc. simpl. rewrite IH by (auto; simpl in Hl; lia).
      reflexivity.
Qed.

Lemma py_str_mul_length (s : pystr) (n : nat) :
  length (concat (replicate n s)) = (n * length s)%nat.
Proof. induction n as [|n IH]; [reflexivity|]. simpl. rewrite length_app, IH. lia. Qed.

(** With [cb_safe] (the default) and a language tag without ["```"], the
    text between the opening and the closing fence of [str(codeblock)]
    never contains ["```"], whatever the content: the fence cannot be
    closed early. *)
Theorem codeblock_fence_closed (c : pystr) (l : option pystr) :
  has_run3 (match l with Some x => x | None => [] end) = false ->
  exists body,
    codeblock_str (new_codeblock c l true) = lit "```" ++ body ++ lit "```" /\
    ~ occurs_in [backtick; backtick; backtick] body.
Proof.
  intros Hl. unfold codeblock_str, new_codeblock. cbn [lang content].
  set (x := match l with Some x => x | None => [] end) in *.
  exists (x ++ [newline] ++ py_replace c [backtick; backtick] [backtick; zwsp; backtick]
            ++ [newline]).
  split; [rewrite <- !app_assoc; reflexivity|].
  rewrite <- has_run3_infix. cbn [app]. rewrite has_run3_app_newline, Hl. simpl.
  assert (H : forall y, has_run3 (y ++ [newline]) = has_run3 y).
  { intros y. rewrite has_run3_app_newline, orb_false_r. reflexivity. }
  rewrite H. unfold py_replace.
  rewrite (proj1 (escape_no_run3 (length c) c (le_n _))). discriminate.
Qed.

Lemma codeblock_fence_closed_witness :
  exists body,
    codeblock_str (new_codeblock (lit "a```b") (Some (lit "py")) true)
    = lit "```" ++ body ++ lit "```" /\
    ~ occurs_in [backtick; backtick; backtick] body.
Proof. apply (codeblock_fence_closed (lit "a```b") (Some (lit "py"))). reflexivity. Defined.

(** The escaping only inserts zero-width spaces: on a content that has
    none, deleting them from the escaped content gives the content back;
    without [cb_safe] the content is kept as is. *)
Theorem codeblock_escape_roundtrip (c : pystr) (l : option pystr) :
  zwsp ∉ c ->
  List.filter (fun x => negb (x =? zwsp)) (content (new_codeblock c l true)) = c /\
  content (new_codeblock c l false) = c.
Proof.
  intros Hz. split; [|reflexivity].
  apply escape_filter; [unfold py_replace; lia | exact Hz].
Qed.

Lemma codeblock_escape_roundtrip_witness :
  List.filter (fun x => negb (x =? zwsp)) (content (new_codeblock (lit "``x```") None true))
  = lit "``x```" /\
  content (new_codeblock (lit "``x```") None false) = lit "``x```".
Proof.
  apply codeblock_escape_roundtrip.
  rewrite list_elem_of_In. simpl. intuition discriminate.
Defined.

(** [tab(n)] is [n] copies of a space and a zero-width space: it has
    [2 n] characters, none when [n <= 0], and tabs concatenate. *)
Theorem tab_length_add (n m : Z) :
  (0 <= n)%Z -> (0 <= m)%Z ->
  length (tab n) = (2 * Z.to_nat n)%nat /\
  tab (n + m) = tab n ++ tab m /\
  (forall k, (k <= 0)%Z -> tab k = []).
Proof.
  intros Hn Hm. unfold tab, py_str_mul. split; [|split].
  - rewrite py_str_mul_length. simpl. lia.
  - rewrite Z2Nat.inj_add by assumption. rewrite replicate_add, concat_app.
    reflexivity.
  - intros k Hk. replace (Z.to_nat k) with 0%nat by lia. reflexivity.
Qed.

Lemma tab_length_add_witness :
  length (tab 3) = (2 * Z.to_nat 3)%nat /\ tab (3 + 2) = tab 3 ++ tab 2 /\
  (forall k, (k <= 0)%Z -> tab k = []).
Proof. apply tab_length_add; lia. Defined.

(** [tick] with pairwise distinct buttons: the check button exactly for a
    value equal to [True] ([True] itself or the integer [1]), the neutral
    button exactly for [None], the x button for every other value
    ([False], [0], other integers, strings); a label is appended after
    [': ']. *)
Theorem tick_cases (cfg : Emojis) (more : MoreEmojis) (opt : pyobj) :
  check_button cfg <> x_button cfg ->
  neutral_button more <> x_button cfg ->
  check_button cfg <> neutral_button more ->
  (tick cfg more opt None = check_button cfg <->
   opt = PyBool true \/ opt = PyInt 1) /\
  (tick cfg more opt None = neutral_button more <-> opt = PyNone) /\
  (tick cfg more opt None = x_button cfg <->
   ~ (opt = PyBool true \/ opt = PyInt 1 \/ opt = PyNone)) /\
  (forall l, tick cfg more opt (Some l)
             = String.append (tick cfg more opt None) (String.append ": " l)).
Proof.
  intros H1 H2 H3. split; [|split; [|split; [|reflexivity]]];
  destruct opt as [[]|z| |s]; unfold tick; simpl;
  try (destruct (Z.eqb_spec z 1) as [->|Hz1]; simpl;
       [|destruct (Z.eqb_spec z 0) as [->|Hz0]; simpl]);
  split; intros H; try congruence;
  try (destruct H as [H|H]; congruence);
  try (destruct H as [H|[H|H]]; congruence);
  try (exfalso; apply H; auto; fail);
  try (intuition congruence).
Qed.

Lemma tick_cases_witness :
  (tick Fixtures.test_emojis (mkMoreEmojis "none" "on" "off") (PyInt 1) None
     = check_button Fixtures.test_emojis <->
   PyInt 1 = PyBool true \/ PyInt 1 = PyInt 1) /\
  (tick Fixtures.test_emojis (mkMoreEmojis "none" "on" "off") (PyInt 1) None
     = neutral_button (mkMoreEmojis "none" "on" "off") <->
   PyInt 1 = PyNone) /\
  (tick Fixtures.test_emojis (mkMoreEmojis "none" "on" "off") (PyInt 1) None
     = x_button Fixtures.test_emojis <->
   ~ (PyInt 1 = PyBool true \/ PyInt 1 = PyInt 1 \/ PyInt 1 = PyNone)) /\
  (forall l, tick Fixtures.test_emojis (mkMoreEmojis "none" "on" "off") (PyInt 1) (Some l)
     = String.append (tick Fixtures.test_emojis (mkMoreEmojis "none" "on" "off") (PyInt 1) None)
                     (String.append ": " l)).
Proof. apply tick_cases; discriminate. Defined.

(** [toggle] only ever returns the on or the off emoji, and (when they
    differ) the on emoji exactly for a value equal to [True]: [True] or
    the integer [1]; [None], [False], [0] and anything else give off. *)
Theorem toggle_cases (more : MoreEmojis) (opt : pyobj) :
  (toggle more opt = toggleon more \/ toggle more opt = toggleoff more) /\
  (toggleon more <> toggleoff more ->
   (toggle more opt = toggleon more <-> opt = PyBool true \/ opt = PyInt 1)).
Proof.
  split; [|intros Hd];
  destruct opt as [[]|z| |s]; unfold toggle; simpl;
  try (destruct (Z.eqb_spec z 1) as [->|Hz1]; simpl;
       [|destruct (Z.eqb_spec z 0) as [->|Hz0]; simpl]);
  try (left; reflexivity); try (right; reflexivity);
  split; intros H; try congruence; try (destruct H as [H|H]; congruence);
  auto.
Qed.

Lemma toggle_cases_witness :
  (toggle (mkMoreEmojis "none" "on" "off") PyNone = "on" \/
   toggle (mkMoreEmojis "none" "on" "off") PyNone = "off") /\
  (toggle (mkMoreEmojis "none" "on" "off") PyNone = toggleon (mkMoreEmojis "none" "on" "off")
   <-> PyNone = PyBool true \/ PyNone = PyInt 1).
Proof.
  destruct (toggle_cases (mkMoreEmojis "none" "on" "off") PyNone) as [H1 H2].
  split; [exact H1 | apply H2; discriminate].
Defined.

End FormattingFacts.

(* ------------------------------------------------------------------ *)
(** ** Loading indicator: clean-up and dispatch *)

Module LoadingFacts.
Import Platform Indicator.

Lemma finalise_trace (c : LCtx) (l : Loading) (react : platform) :
  (finalise c l react).1 = [] \/
  ((finalise c l react).1 = [AddReaction (message_id c) (check_button (emojis c))]
   /\ tick l = true).
Proof.
  unfold finalise. destruct (can_react l); [|left; reflexivity].
  destruct (tick l); [right; split; reflexivity | left; reflexivity].
Qed.

(** The calls of [__aexit__]: the removal of the loading marker, then at
    most one dispatch of the body's exception (only with [prop]) or the
    success-marker step. *)
Lemma aexit_trace (c : LCtx) (l : Loading) (react : platform) (e : option exc) :
  exists rest,
    (aexit c l react e).1
    = RemoveReaction (message_id c) (loading (emojis c)) (me c) :: rest /\
    (rest = [] \/
     (rest = [AddReaction (message_id c) (check_button (emojis c))] /\ tick l = true) \/
     (exists x, e = Some x /\ prop l = true /\ rest = [DispatchCommandError x]
                /\ (aexit c l react e).2 = inl true)).
Proof.
  unfold aexit.
  destruct (react (RemoveReaction (message_id c) (loading (emojis c)) (me c))).
  { exists []. auto. }
  pose proof (finalise_trace c l react) as Hf.
  destruct (finalise c l react) as [tr r] eqn:Ef. simpl in Hf.
  assert (Hr : exists rest, ([RemoveReaction (message_id c) (loading (emojis c)) (me c)] ++ tr)
                 = RemoveReaction (message_id c) (loading (emojis c)) (me c) :: rest /\
               (rest = [] \/
                (rest = [AddReaction (message_id c) (check_button (emojis c))]
                 /\ tick l = true)))
    by (exists tr; split; [reflexivity | tauto]).
  destruct (ignorable l e).
  - destruct Hr as (rest & H1 & H2). destruct r; exists rest; simpl in *;
      (split; [exact H1 | tauto]).
  - destruct e as [x|].
    + destruct (prop l) eqn:Ep.
      * exists [DispatchCommandError x]. split; [reflexivity|].
        right; right. exists x. auto.
      * destruct Hr as (rest & H1 & H2). destruct r; exists rest; simpl in *;
          (split; [exact H1 | tauto]).
    + destruct Hr as (rest & H1 & H2). destruct r; exists rest; simpl in *;
        (split; [exact H1 | tauto]).
Qed.

(** Unless adding the loading marker raises something other than an
    [HTTPException] (then nothing else is called and that exception
    escapes), the marker's removal is always requested, right after the
    attempt to add it: whatever the body does, and whatever the other
    calls raise. *)
Theorem loading_always_cleans_up (c : LCtx) (l : Loading) (react : platform)
    (body : option exc) :
  (forall e, react (AddReaction (message_id c) (loading (emojis c))) = Some e ->
   exists code, e = HTTPException code) ->
  exists rest,
    (with_loading c l react body).1
    = [AddReaction (message_id c) (loading (emojis c));
       RemoveReaction (message_id c) (loading (emojis c)) (me c)] ++ rest.
Proof.
  intros Hadd. unfold with_loading, aenter.
  destruct (react (AddReaction (message_id c) (loading (emojis c)))) as [e|] eqn:Ea.
  - destruct (Hadd e eq_refl) as [code ->].
    set (l1 := if Z.eqb code 90001 then _ else l).
    destruct (aexit_trace c l1 react body) as (rest & Ht & _).
    destruct (aexit c l1 react body) as [tr2 r2]. simpl in Ht. subst tr2.
    exists rest. reflexivity.
  - destruct (aexit_trace c l react body) as (rest & Ht & _).
    destruct (aexit c l react body) as [tr2 r2]. simpl in Ht. subst tr2.
    exists rest. reflexivity.
Qed.

Lemma loading_always_cleans_up_witness :
  exists rest,
    (with_loading Fixtures.test_ctx (new_loading true false [])
       (fun a => match a with AddReaction _ _ => Some (HTTPException 50013)
                         | _ => None end) None).1
    = [AddReaction 10 "wait"; RemoveReaction 10 "wait" 99] ++ rest.
Proof.
  apply (loading_always_cleans_up Fixtures.test_ctx (new_loading true false [])).
  intros e He. injection He as <-. exists 50013%Z. reflexivity.
Defined.

(** When the marker cannot be added because of an exception that is not
    an [HTTPException], nothing else is called and that exception escapes
    (the body is never entered). *)
Theorem loading_enter_failure (c : LCtx) (l : Loading) (react : platform)
    (body : option exc) (e : exc) :
  react (AddReaction (message_id c) (loading (emojis c))) = Some e ->
  (forall code, e <> HTTPException code) ->
  with_loading c l react body
  = ([AddReaction (message_id c) (loading (emojis c))], Some e).
Proof.
  intros Ha He. unfold with_loading, aenter. rewrite Ha.
  destruct e; try reflexivity. exfalso. eapply He. reflexivity.
Qed.

Lemma loading_enter_failure_witness :
  with_loading Fixtures.test_ctx (new_loading true true [])
    (fun _ => Some (OtherExc 3)) None
  = ([AddReaction 10 "wait"], Some (OtherExc 3)).
Proof.
  apply (loading_enter_failure Fixtures.test_ctx _ _ None (OtherExc 3));
    [reflexivity | discriminate].
Defined.

(** The indicator dispatches nothing but the body's own exception: a
    dispatch in the trace is of the exception the body raised, only with
    [prop], and that exception is then swallowed. *)
Theorem loading_dispatch_only_body (c : LCtx) (l : Loading) (react : platform)
    (body : option exc) (x : exc) :
  DispatchCommandError x ∈ (with_loading c l react body).1 ->
  body = Some x /\ prop l = true /\ (with_loading c l react body).2 = None.
Proof.
  unfold with_loading, aenter.
  assert (Hgen : forall l1 tr1,
    DispatchCommandError x ∈
      (tr1 ++ (aexit c l1 react body).1) ->
    (forall a, a ∈ tr1 -> a = AddReaction (message_id c) (loading (emojis c))) ->
    prop l1 = prop l ->
    body = Some x /\ prop l = true /\
    match (aexit c l1 react body).2 with
    | inr e => Some e | inl true => None | inl false => body end = None).
  { intros l1 tr1 Hin Htr Hp.
    destruct (aexit_trace c l1 react body) as (rest & Ht & Hrest).
    apply elem_of_app in Hin as [Hin|Hin]; [apply Htr in Hin; discriminate|].
    rewrite Ht in Hin. apply elem_of_cons in Hin as [Hin|Hin]; [discriminate|].
    destruct Hrest as [->|[[-> _]|(y & Hb & Hpy & -> & Hr)]].
    - apply elem_of_nil in Hin. contradiction.
    - apply list_elem_of_singleton in Hin. discriminate.
    - apply list_elem_of_singleton in Hin. injection Hin as ->.
      rewrite Hr. rewrite <- Hp. auto. }
  destruct (react (AddReaction (message_id c) (loading (emojis c)))) as [e|].
  - destruct e; simpl;
      try (intros Hin; apply list_elem_of_singleton in Hin; discriminate).
    set (l1 := if Z.eqb code 90001 then _ else l).
    intros Hin.
    pose proof (Hgen l1 [AddReaction (message_id c) (loading (emojis c))]) as H.
    destruct (aexit c l1 react body) as [tr2 r2]. simpl in *.
    apply H; [exact Hin | intros a Ha; apply list_elem_of_singleton in Ha; exact Ha |].
    unfold l1. destruct (Z.eqb code 90001); reflexivity.
  - intros Hin.
    pose proof (Hgen l [AddReaction (message_id c) (loading (emojis c))]) as H.
    destruct (aexit c l react body) as [tr2 r2]. simpl in *.
    apply H; [exact Hin | intros a Ha; apply list_elem_of_singleton in Ha; exact Ha |
              reflexivity].
Qed.

Lemma loading_dispatch_only_body_witness :
  Some (OtherExc 1) = Some (OtherExc 1) /\ prop (new_loading true true []) = true /\
  (with_loading Fixtures.test_ctx (new_loading true true []) (fun _ => None)
     (Some (OtherExc 1))).2 = None.
Proof.
  apply (loading_dispatch_only_body Fixtures.test_ctx (new_loading true true [])
           (fun _ => None) (Some (OtherExc 1)) (OtherExc 1)).
  simpl. rewrite elem_of_cons. right. rewrite elem_of_cons. right.
  apply list_elem_of_singleton. reflexivity.
Defined.

(** With [tick=False] (how the GitHub and screenshot commands use it) the
    indicator never adds the success marker: its only calls are adding
    and removing the loading marker and dispatching the body's error. *)
Theorem loading_no_tick_calls (c : LCtx) (l : Loading) (react : platform)
    (body : option exc) :
  tick l = false ->
  forall a, a ∈ (with_loading c l react body).1 ->
  a = AddReaction (message_id c) (loading (emojis c)) \/
  a = RemoveReaction (message_id c) (loading (emojis c)) (me c) \/
  exists x, body = Some x /\ a = DispatchCommandError x.
Proof.
  intros Ht a. unfold with_loading, aenter.
  assert (Hgen : forall l1, tick l1 = false ->
    a ∈ [AddReaction (message_id c) (loading (emojis c))] ++ (aexit c l1 react body).1 ->
    a = AddReaction (message_id c) (loading (emojis c)) \/
    a = RemoveReaction (message_id c) (loading (emojis c)) (me c) \/
    exists x, body = Some x /\ a = DispatchCommandError x).
  { intros l1 Ht1 Hin.
    destruct (aexit_trace c l1 react body) as (rest & Htr & Hrest).
    rewrite Htr in Hin. simpl in Hin.
    apply elem_of_cons in Hin as [->|Hin]; [left; reflexivity|].
    apply elem_of_cons in Hin as [->|Hin]; [right; left; reflexivity|].
    destruct Hrest as [->|[[-> Hx] | (y & Hb & _ & -> & _)]].
    - apply elem_of_nil in Hin. contradiction.
    - congruence.
    - apply list_elem_of_singleton in Hin. subst. right; right. eauto. }
  destruct (react (AddReaction (message_id c) (loading (emojis c)))) as [e|].
  - destruct e; simpl;
      try (intros Hin; apply list_elem_of_singleton in Hin; left; exact Hin).
    set (l1 := if Z.eqb code 90001 then _ else l).
    intros Hin. apply (Hgen l1).
    + unfold l1. destruct (Z.eqb code 90001); exact Ht.
    + destruct (aexit c l1 react body) as [tr2 r2]. exact Hin.
  - intros Hin. apply (Hgen l Ht).
    destruct (aexit c l react body) as [tr2 r2]. exact Hin.
Qed.

Lemma loading_no_tick_calls_witness :
  RemoveReaction 10 "wait" 99 = AddReaction 10 "wait" \/
  RemoveReaction 10 "wait" 99 = RemoveReaction 10 "wait" 99 \/
  exists x, (None : option exc) = Some x /\
            RemoveReaction 10 "wait" 99 = DispatchCommandError x.
Proof.
  apply (loading_no_tick_calls Fixtures.test_ctx (new_loading true false [])
           (fun _ => None) None); [reflexivity|].
  simpl. rewrite elem_of_cons. right. apply list_elem_of_singleton. reflexivity.
Defined.

End LoadingFacts.

(* ------------------------------------------------------------------ *)
(** ** Prompt with identical markers *)

Module PromptExtraFacts.
Import Platform Prompt.

Lemma wait_for_ext {A} (f g : A -> bool) (evs : list A) :
  (forall x, f x = g x) -> wait_for f evs = wait_for g evs.
Proof.
  intros H. induction evs as [|e evs IH]; [reflexivity|]. simpl.
  rewrite H, IH. reflexivity.
Qed.

(** When the accept and reject markers are the same emoji, the dict
    literal keeps one key, mapped to [False]: a single reaction is added,
    and the prompt can only ever answer [false] (["Cancelled!"]). *)
Theorem prompt_same_markers (cfg : Emojis) (author msg_id : Z)
    (message : string) (evs : list Payload) :
  check_button cfg = x_button cfg ->
  prompt cfg author msg_id message evs
  = match wait_for (prompt_accepts cfg author msg_id) evs with
    | None => ([Send message; AddReaction msg_id (x_button cfg)], None)
    | Some _ => ([Send message; AddReaction msg_id (x_button cfg);
                  Edit msg_id "Cancelled!"], Some false)
    end.
Proof.
  intros Heq. unfold prompt, dict_of. rewrite Heq. simpl.
  rewrite String.eqb_refl. simpl.
  rewrite (wait_for_ext _ (prompt_accepts cfg author msg_id)).
  - destruct (wait_for (prompt_accepts cfg author msg_id) evs) as [p|];
      [|reflexivity].
    simpl. destruct (String.eqb (p_emoji p) (x_button cfg)); reflexivity.
  - intros p. unfold prompt_accepts. rewrite Heq. do 2 f_equal.
    apply bool_decide_ext. rewrite !elem_of_cons. tauto.
Qed.

Lemma prompt_same_markers_witness :
  prompt (mkEmojis "ok" "ok" "wait" "warn") 5 10 "Sure?"
    [mkPayload "ok" 5 10]
  = match wait_for (prompt_accepts (mkEmojis "ok" "ok" "wait" "warn") 5 10)
            [mkPayload "ok" 5 10] with
    | None => ([Send "Sure?"; AddReaction 10 "ok"], None)
    | Some _ => ([Send "Sure?"; AddReaction 10 "ok"; Edit 10 "Cancelled!"],
                 Some false)
    end.
Proof. apply (prompt_same_markers (mkEmojis "ok" "ok" "wait" "warn")). reflexivity. Defined.

End PromptExtraFacts.

(* ------------------------------------------------------------------ *)
(** ** Error-detail escalation: the calls it can make *)

Module ReporterExtraFacts.
Import Platform Reporter.

(** [propagate_error] makes at most two calls, all about the invoking
    message and the error: sending the error text, adding the warning
    marker, or removing the bot's own warning marker; once the error is
    sent the warning marker is never removed. *)
Theorem propagate_error_calls (cfg : Emojis) (msg author me : Z)
    (owners : list Z) (error : string) (do_emojis : bool)
    (react : action -> option exc) (evs : list ReactionEvent) :
  let tr := propagate_error cfg msg author me owners error do_emojis react evs in
  (length tr <= 2)%nat /\
  (forall a, a ∈ tr ->
   a = Send error \/ a = AddReaction msg (warning_button cfg) \/
   a = RemoveReaction msg (warning_button cfg) me) /\
  (Send error ∈ tr -> forall u, RemoveReaction msg (warning_button cfg) u ∉ tr).
Proof.
  unfold propagate_error.
  destruct do_emojis; simpl;
    [destruct (react (AddReaction msg (warning_button cfg)));
     [|destruct (wait_for_timeout _ 30 evs) as [ev|];
       [destruct (String.eqb (r_emoji ev) (warning_button cfg))|]]|];
  (split; [simpl; lia|]); (split; [intros a Ha | intros Hs u Hu]);
  repeat rewrite elem_of_cons in *; rewrite ?elem_of_nil in *;
  intuition congruence.
Qed.

End ReporterExtraFacts.

(* ------------------------------------------------------------------ *)
(** ** Prefix resolution: no duplicate prefixes *)

Module PrefixExtraFacts.
Import Prefix.

Lemma string_length_append (s1 s2 : string) :
  String.length (String.append s1 s2) = (String.length s1 + String.length s2)%nat.
Proof. induction s1 as [|a s1 IH]; simpl; [reflexivity | rewrite IH; reflexivity]. Qed.

Lemma when_mentioned_nodup (uid : Z) : NoDup (when_mentioned uid).
Proof.
  unfold when_mentioned. apply NoDup_cons. split.
  - rewrite list_elem_of_singleton. intros H.
    apply (f_equal String.length) in H.
    rewrite !string_length_append in H. simpl in H. lia.
  - apply NoDup_singleton.
Qed.

Lemma get_prefix_shape (bot : PBot) (message : Message) (ps : list string) :
  get_prefix bot message = Prefixes ps ->
  exists p, ps = when_mentioned (bot_user_id bot) ++ p /\ NoDup p.
Proof.
  unfold get_prefix. destruct (is_closed bot); [discriminate|].
  destruct (guild message) as [g|].
  2: { intros H. injection H as <-. exists ["n/"]. split; [reflexivity | apply NoDup_singleton]. }
  destruct (guild_cache bot !! g) as [row|].
  2: { intros H. injection H as <-. exists ["n/"]. split; [reflexivity | apply NoDup_singleton]. }
  destruct (prefixes row) as [[l|]|]; intros H; try discriminate;
    injection H as <-.
  - exists (list_of_set l). split; [reflexivity | apply NoDup_remove_dups].
  - exists ["n/"]. split; [reflexivity | apply NoDup_singleton].
Qed.

(** The prefixes [get_prefix] returns are the two mention prefixes
    followed by pairwise distinct prefixes; the whole list has a
    duplicate only when a guild's custom prefix is one of the bot's
    mention strings. *)
Theorem get_prefix_nodup (bot : PBot) (message : Message) (ps : list string) :
  get_prefix bot message = Prefixes ps ->
  take 2 ps = when_mentioned (bot_user_id bot) /\ NoDup (drop 2 ps) /\
  (NoDup ps <->
   forall x, x ∈ drop 2 ps -> x ∉ when_mentioned (bot_user_id bot)).
Proof.
  intros H. destruct (get_prefix_shape bot message ps H) as (p & -> & Hp).
  assert (Hl : length (when_mentioned (bot_user_id bot)) = 2%nat) by reflexivity.
  rewrite <- Hl, take_app_length, drop_app_length.
  split; [reflexivity|]. split; [exact Hp|].
  rewrite NoDup_app. split.
  - intros (_ & Hd & _) x Hx Hw. exact (Hd x Hw Hx).
  - intros Hd. split; [apply when_mentioned_nodup|]. split; [|exact Hp].
    intros x Hw Hx. exact (Hd x Hx Hw).
Qed.

Lemma get_prefix_nodup_witness :
  take 2 (when_mentioned 42 ++ ["!"]) = when_mentioned (bot_user_id
    (mkPBot false 42 (<[1%Z := mkGuildRow (Some (PList ["!"; "!"]))]> ∅))) /\
  NoDup (drop 2 (when_mentioned 42 ++ ["!"])) /\
  (NoDup (when_mentioned 42 ++ ["!"]) <->
   forall x, x ∈ drop 2 (when_mentioned 42 ++ ["!"]) ->
   x ∉ when_mentioned (bot_user_id
     (mkPBot false 42 (<[1%Z := mkGuildRow (Some (PList ["!"; "!"]))]> ∅)))).
Proof.
  apply (get_prefix_nodup
           (mkPBot false 42 (<[1%Z := mkGuildRow (Some (PList ["!"; "!"]))]> ∅))
           (mkMessage (Some 1%Z))).
  reflexivity.
Defined.

End PrefixExtraFacts.

(* ------------------------------------------------------------------ *)
(** ** Output guard: what the token search finds, and lengths *)

Module SafeSendExtraFacts.
Import SafeSend.

Lemma replace_fuel_length_le (f : nat) (old new s : pystr) :
  (length new <= length old)%nat ->
  (length (replace_fuel f old new s) <= length s)%nat.
Proof.
  intros Hn. revert s. induction f as [|f IH]; intros s; [simpl; lia|].
  destruct s as [|c rest]; [simpl; lia|]. cbn [replace_fuel].
  case_bool_decide as Hm.
  - rewrite length_app. specialize (IH (drop (length old) (c :: rest))).
    rewrite length_drop in IH.
    pose proof (f_equal length Hm) as Hl. rewrite length_take in Hl.
    lia.
  - cbn [length]. specialize (IH rest). lia.
Qed.

Lemma alt_bot_token_take (t : pystr) :
  alt_bot_token t = true -> alt_bot_token (take 59 t) = true.
Proof.
  unfold alt_bot_token. intros H.
  assert (Hl : (59 <= length t)%nat).
  { apply Nat.leb_le. destruct (59 <=? length t); [reflexivity|discriminate]. }
  rewrite length_take, nth_firstn, nth_firstn, !skipn_firstn_comm, !take_take.
  replace (Nat.min 59 (length t)) with 59%nat by lia.
  rewrite (proj2 (Nat.leb_le _ _) Hl) in H. exact H.
Qed.

Lemma alt_mfa_token_take (t : pystr) :
  alt_mfa_token t = true -> alt_mfa_token (take 88 t) = true.
Proof.
  unfold alt_mfa_token. intros H.
  assert (Hl : (88 <= length t)%nat).
  { apply Nat.leb_le. destruct (88 <=? length t); [reflexivity|discriminate]. }
  rewrite length_take, !skipn_firstn_comm, !take_take.
  replace (Nat.min 88 (length t)) with 88%nat by lia.
  rewrite (proj2 (Nat.leb_le _ _) Hl) in H. exact H.
Qed.

Lemma match_at_shape (s m : pystr) :
  match_at s = Some m ->
  m = take (length m) s /\
  ((length m = 59 /\ alt_bot_token m = true) \/
   (length m = 88 /\ alt_mfa_token m = true))%nat.
Proof.
  unfold match_at. destruct (alt_bot_token s) eqn:Eb.
  - intros H. injection H as <-.
    assert (Hl : (59 <= length s)%nat).
    { unfold alt_bot_token in Eb. apply Nat.leb_le.
      destruct (59 <=? length s); [reflexivity|discriminate]. }
    rewrite length_take. replace (Nat.min 59 (length s)) with 59%nat by lia.
    split; [reflexivity|]. left. split; [reflexivity|]. apply alt_bot_token_take, Eb.
  - destruct (alt_mfa_token s) eqn:Em; [|discriminate].
    intros H. injection H as <-.
    assert (Hl : (88 <= length s)%nat).
    { unfold alt_mfa_token in Em. apply Nat.leb_le.
      destruct (88 <=? length s); [reflexivity|discriminate]. }
    rewrite length_take. replace (Nat.min 88 (length s)) with 88%nat by lia.
    split; [reflexivity|]. right. split; [reflexivity|]. apply alt_mfa_token_take, Em.
Qed.

Lemma re_search_length (s m : pystr) :
  re_search s = Some m -> (length m = 59 \/ length m = 88)%nat.
Proof.
  induction s as [|c s IH]; [discriminate|]. simpl.
  destruct (match_at (c :: s)) as [m'|] eqn:E.
  - intros H. injection H as <-. apply match_at_shape in E. tauto.
  - exact IH.
Qed.

(** [re.search] finds the leftmost match: the text it returns is a
    contiguous piece of the content that has one of the two token shapes
    (59 characters for a bot token, 88 for an [mfa.] token), the pattern
    matches exactly that piece at its position, and no earlier position
    starts a match; [None] means no position starts one. *)
Theorem re_search_leftmost (s m : pystr) :
  (re_search s = Some m ->
   exists pre post, s = pre ++ m ++ post /\ match_at (m ++ post) = Some m /\
     (forall k, (k < length pre)%nat -> match_at (drop k s) = None) /\
     ((length m = 59 /\ alt_bot_token m = true) \/
      (length m = 88 /\ alt_mfa_token m = true))%nat) /\
  (re_search s = None -> forall k, (k < length s)%nat -> match_at (drop k s) = None).
Proof.
  induction s as [|c s [IH1 IH2]].
  - split; [discriminate|]. intros _ k Hk. simpl in Hk. lia.
  - cbn [re_search]. destruct (match_at (c :: s)) as [m'|] eqn:E.
    + split; [|discriminate]. intros H. injection H as <-.
      destruct (match_at_shape _ _ E) as [Ht Hshape].
      exists [], (drop (length m') (c :: s)).
      assert (Hs : c :: s = m' ++ drop (length m') (c :: s))
        by (rewrite Ht at 1; rewrite take_drop; reflexivity).
      split; [exact Hs|]. split; [rewrite <- Hs; exact E|].
      split; [intros k Hk; simpl in Hk; lia | exact Hshape].
    + split.
      * intros H. destruct (IH1 H) as (pre & post & Hs & Hm & Hk & Hshape).
        exists (c :: pre), post. split; [rewrite Hs; reflexivity|].
        split; [exact Hm|]. split; [|exact Hshape].
        intros [|k] Hlt; [exact E|]. simpl in Hlt. apply Hk. lia.
      * intros H [|k] Hlt; [exact E|]. simpl in Hlt. apply IH2; [exact H | lia].
Qed.

(** Redaction never makes the content longer (a 59- or 88-character
    token becomes the 15 characters of ['[token omitted]']), so a
    non-empty content of at most 2000 characters is always sent directly,
    in its redacted form, and never uploaded to the paste service. *)
Theorem redact_short_sent_directly (c key : pystr) :
  (length (redact c) <= length c)%nat /\
  (c <> [] -> (length c <= 2000)%nat ->
   safe_send (Some c) key = [SendText (redact c)]).
Proof.
  assert (Hr : (length (redact c) <= length c)%nat).
  { unfold redact. destruct (re_search c) as [m|] eqn:E; [|lia].
    apply re_search_length in E. unfold py_replace.
    apply replace_fuel_length_le. simpl. lia. }
  split; [exact Hr|]. intros Hc Hl.
  destruct c as [|x c]; [contradiction|]. unfold safe_send.
  replace (2000 <? length (redact (x :: c))) with false
    by (symmetry; apply Nat.ltb_ge; lia).
  reflexivity.
Qed.

End SafeSendExtraFacts.

(* ------------------------------------------------------------------ *)
(** ** Global rate limit: bucket invariants and expiry *)

Module RateLimitExtraFacts.
Import RateLimit.
Local Open Scope Q_scope.

(** [update_rate_limit] keeps a bucket's rate and period, stamps
    [_last] with the call time and never lets the allowance exceed the
    rate: a call that is let through spends exactly one of the tokens
    available, a rate-limited call finds none and leaves none. *)
Theorem update_rate_limit_tokens (c : Cooldown) (t : Q) :
  (_tokens c <= rate c)%nat ->
  let '(ra, c') := update_rate_limit c t in
  rate c' = rate c /\ per c' = per c /\ _last c' = t /\
  (_tokens c' <= rate c')%nat /\
  match ra with
  | None => get_tokens c t <> 0%nat /\ _tokens c' = Nat.pred (get_tokens c t)
  | Some _ => get_tokens c t = 0%nat /\ _tokens c' = 0%nat
  end.
Proof.
  intros Hc. unfold update_rate_limit.
  assert (Hg : (get_tokens c t <= rate c)%nat)
    by (unfold get_tokens; destruct (Qle_bool _ _); lia).
  destruct (Nat.eqb (get_tokens c t) (rate c)) eqn:E1; cbn [_tokens rate per _last _window];
  destruct (Nat.eqb (get_tokens c t) 0) eqn:E2; cbn [_tokens rate per _last _window];
  apply Nat.eqb_eq in E2 || apply Nat.eqb_neq in E2;
  try (destruct (Nat.eqb (Nat.pred (get_tokens c t)) 0) eqn:E3;
       cbn [_tokens rate per _last _window]);
  try apply Nat.eqb_eq in E3; repeat split; try reflexivity; try lia.
Qed.

Lemma update_rate_limit_tokens_witness :
  let '(ra, c') := update_rate_limit (mkCooldown 2 (5 # 2) 100 1 100) (201 # 2) in
  rate c' = rate (mkCooldown 2 (5 # 2) 100 1 100) /\
  per c' = per (mkCooldown 2 (5 # 2) 100 1 100) /\ _last c' = (201 # 2) /\
  (_tokens c' <= rate c')%nat /\
  match ra with
  | None => get_tokens (mkCooldown 2 (5 # 2) 100 1 100) (201 # 2) <> 0%nat /\
            _tokens c' = Nat.pred (get_tokens (mkCooldown 2 (5 # 2) 100 1 100) (201 # 2))
  | Some _ => get_tokens (mkCooldown 2 (5 # 2) 100 1 100) (201 # 2) = 0%nat /\
              _tokens c' = 0%nat
  end.
Proof. apply (update_rate_limit_tokens (mkCooldown 2 (5 # 2) 100 1 100) (201 # 2)). simpl. lia. Defined.

(** The [retry_after] of a rate-limited call lies between 0 and the
    period, for a bucket whose window started no later than the call. *)
Theorem update_rate_limit_retry_bounds (c c' : Cooldown) (t r : Q) :
  0 <= per c -> _window c <= t ->
  update_rate_limit c t = (Some r, c') ->
  0 <= r /\ r <= per c.
Proof.
  intros Hp Hw. unfold update_rate_limit, get_tokens.
  destruct (Qle_bool t (_window c + per c)) eqn:Eq.
  - apply Qle_bool_iff in Eq.
    destruct (Nat.eqb (_tokens c) (rate c)); cbn [_tokens rate per _last _window];
    (destruct (Nat.eqb _ 0); [|destruct (Nat.eqb _ 0); discriminate]);
    intros H; injection H as <- _; split; lra.
  - rewrite Nat.eqb_refl. cbn [_tokens rate per _last _window].
    (destruct (Nat.eqb _ 0); [|destruct (Nat.eqb _ 0); discriminate]).
    intros H; injection H as <- _; split; lra.
Qed.

Lemma update_rate_limit_retry_bounds_witness :
  0 <= (5 # 2) - (101 - 100) /\ (5 # 2) - (101 - 100) <= per (mkCooldown 2 (5 # 2) 100 0 (201 # 2)).
Proof.
  apply (update_rate_limit_retry_bounds (mkCooldown 2 (5 # 2) 100 0 (201 # 2))
           (mkCooldown 2 (5 # 2) 100 0 101) 101);
    [simpl; lra | simpl; lra | reflexivity].
Defined.

(** After a period of inactivity a bucket expires: when the invoker has
    no bucket, or only one that is no longer alive (the last call is more
    than [per] in the past), the call passes and starts a new window with
    the prototype's full allowance minus the token just spent. *)
Theorem global_cooldown_expired_bucket (m : CooldownMapping) (u : Z) (r : nat)
    (p t : Q) :
  _cooldown m = new_cooldown r p -> (1 <= r)%nat ->
  (forall b, _cache m !! u = Some b -> alive t b = false) ->
  (global_cooldown m u t).2 = Pass /\
  _cache (global_cooldown m u t).1 !! u = Some (mkCooldown r p t (r - 1) t).
Proof.
  intros Hp Hr Hs.
  assert (Hf : _cache (verify_cache_integrity m t) !! u = None).
  { apply map_lookup_filter_None_2. right. intros b Hb Ha.
    simpl in Ha. rewrite (Hs b Hb) in Ha. discriminate. }
  unfold global_cooldown, get_bucket. rewrite Hf. cbn [_cooldown _cache].
  assert (Hc : _cooldown (verify_cache_integrity m t) = new_cooldown r p)
    by exact Hp.
  rewrite Hc. unfold copy, new_cooldown, update_rate_limit, get_tokens.
  cbn [_tokens rate per _last _window].
  assert (Ht : (if Qle_bool t (0 + p) then r else r) = r)
    by (destruct (Qle_bool t (0 + p)); reflexivity).
  rewrite Ht, Nat.eqb_refl. cbn [_tokens rate per _last _window].
  destruct r as [|[|r]]; [lia| |]; cbn -[Qplus Qminus]; split;
    try reflexivity; rewrite lookup_insert_eq; repeat f_equal; lia.
Qed.

Lemma global_cooldown_expired_bucket_witness :
  (global_cooldown (mkMapping (new_cooldown 2 (5 # 2))
                      (<[7%Z := mkCooldown 2 (5 # 2) 100 0 100]> ∅)) 7 104).2 = Pass /\
  _cache (global_cooldown (mkMapping (new_cooldown 2 (5 # 2))
                      (<[7%Z := mkCooldown 2 (5 # 2) 100 0 100]> ∅)) 7 104).1 !! 7%Z
  = Some (mkCooldown 2 (5 # 2) 104 (2 - 1) 104).
Proof.
  apply (global_cooldown_expired_bucket _ 7 2 (5 # 2) 104); [reflexivity | lia|].
  intros b Hb. simpl in Hb. injection Hb as <-. reflexivity.
Defined.

(** Every call purges the cache: after [global_cooldown], every bucket
    kept for another invoker is still alive at the time of the call. *)
Theorem global_cooldown_prunes (m : CooldownMapping) (a u : Z) (t : Q)
    (b : Cooldown) :
  _cache (global_cooldown m a t).1 !! u = Some b -> u <> a ->
  alive t b = true.
Proof.
  intros Hb Hne. revert Hb. unfold global_cooldown, get_bucket.
  destruct (_cache (verify_cache_integrity m t) !! a);
    cbn [_cache _cooldown]; destruct (update_rate_limit _ t) as [[r|] b'];
    try destruct (truthy_float r); cbn [_cache fst];
    rewrite ?lookup_insert_ne by congruence;
    intros Hb; apply map_lookup_filter_Some in Hb; apply Hb.
Qed.

Lemma global_cooldown_prunes_witness :
  alive 101 (mkCooldown 2 (5 # 2) 100 1 100) = true.
Proof.
  apply (global_cooldown_prunes
           (mkMapping (new_cooldown 2 (5 # 2))
              (<[8%Z := mkCooldown 2 (5 # 2) 100 1 100]>
                 (<[9%Z := mkCooldown 2 (5 # 2) 90 1 90]> ∅))) 7 8 101);
    [reflexivity | lia].
Defined.

End RateLimitExtraFacts.

(* ------------------------------------------------------------------ *)
(** ** Check pipeline: blacklisted invokers and the rate limit *)

Module PipelineExtraFacts.
Import RateLimit Core.

Lemma global_cooldown_result (m : CooldownMapping) (a : Z) (t : Q) :
  (global_cooldown m a t).2 = Pass \/
  exists r, (global_cooldown m a t).2 = Raise (CommandOnCooldown r).
Proof.
  unfold global_cooldown. destruct (get_bucket m a t) as [m1 b].
  destruct (update_rate_limit b t) as [[r|] b']; [|left; reflexivity].
  destruct (truthy_float r); [right; eexists; reflexivity | left; reflexivity].
Qed.

(** A blacklisted invoker still goes through the rate limit first: the
    invocation spends their token exactly as for anyone else, never
    reaches the executor, leaves the user cache and storage as they were,
    and ends in [Blacklisted] (or in [CommandOnCooldown] when the rate
    limit denies first). *)
Theorem invoke_blacklisted (cmd : Command) (b : Bot) (ctx : Ctx) (p : Profile) :
  user_cache b !! author ctx = Some p -> _blacklisted p = Some true ->
  let '(b', tr, out) := invoke cmd b ctx in
  _cd b' = (global_cooldown (_cd b) (author ctx) (now ctx)).1 /\
  user_cache b' = user_cache b /\ user_data b' = user_data b /\
  (Executed ∉ tr) /\
  (out = Errored Blacklisted \/ exists r, out = Errored (CommandOnCooldown r)).
Proof.
  intros Hc Hb.
  pose proof (global_cooldown_result (_cd b) (author ctx) (now ctx)) as Hr.
  unfold invoke, command_can_run, check_once, global_checks. cbn [async_all].
  unfold global_cooldown_check.
  destruct (global_cooldown (_cd b) (author ctx) (now ctx)) as [cd' r] eqn:E.
  cbn [fst snd] in Hr |- *.
  destruct Hr as [->|[x ->]].
  - cbn [async_all]. unfold check_blacklist. cbn [user_cache]. rewrite Hc.
    cbn [is_True]. rewrite Hb. cbn.
    split; [reflexivity|]. split; [reflexivity|]. split; [reflexivity|].
    split; [|left; reflexivity].
    rewrite !elem_of_cons, elem_of_nil. intuition discriminate.
  - cbn. split; [reflexivity|]. split; [reflexivity|]. split; [reflexivity|].
    split; [|right; eexists; reflexivity].
    rewrite !elem_of_cons, elem_of_nil. intuition discriminate.
Qed.

Lemma invoke_blacklisted_witness :
  let '(b', tr, out) :=
    invoke (mkCommand None [] (fun b _ => (b, None)))
      (mkBot neo_cd (<[7%Z := mkProfile (Some true)]> ∅)
                    (<[7%Z := mkProfile (Some true)]> ∅)) (mkCtx 7 100) in
  _cd b' = (global_cooldown neo_cd 7 100).1 /\
  user_cache b' = <[7%Z := mkProfile (Some true)]> ∅ /\
  user_data b' = <[7%Z := mkProfile (Some true)]> ∅ /\
  (Executed ∉ tr) /\
  (out = Errored Blacklisted \/ exists r, out = Errored (CommandOnCooldown r)).
Proof.
  exact (invoke_blacklisted (mkCommand None [] (fun b _ => (b, None)))
           (mkBot neo_cd (<[7%Z := mkProfile (Some true)]> ∅)
                         (<[7%Z := mkProfile (Some true)]> ∅)) (mkCtx 7 100)
           (mkProfile (Some true)) eq_refl eq_refl).
Defined.

End PipelineExtraFacts.

(* ------------------------------------------------------------------ *)
(** ** Before-invoke hook: idempotence and the blacklist verdict *)

Module HookExtraFacts.
Import RateLimit Core Hooks.

Lemma before_cases (b : Bot) (ctx : Ctx) :
  (before b ctx = (b, [])) \/
  (user_cache b !! author ctx = None /\ user_data b !! author ctx = None /\
   before b ctx
   = (mkBot (_cd b) (<[author ctx := new_row]> (user_data b))
                    (<[author ctx := new_row]> (user_data b)),
      [DbInsert (author ctx); CacheRefresh])).
Proof.
  unfold before, insert_user, refresh.
  destruct (user_cache b !! author ctx) eqn:Ec; [left; reflexivity|].
  destruct (user_data b !! author ctx) eqn:Ed; [left; reflexivity|].
  right. auto.
Qed.

(** Running the hook a second time for the same invoker writes nothing
    and changes nothing. *)
Theorem before_idempotent (b : Bot) (ctx : Ctx) :
  before (before b ctx).1 ctx = ((before b ctx).1, []).
Proof.
  destruct (before_cases b ctx) as [H|(Hc & Hd & H)]; rewrite H; cbn [fst].
  - exact H.
  - unfold before. cbn [user_cache]. rewrite lookup_insert_eq. reflexivity.
Qed.

(** The hook never changes the blacklist verdict on the invoker: the
    row it may create is not blacklisted, and it leaves any cached row
    alone. *)
Theorem before_keeps_blacklist_verdict (b : Bot) (ctx : Ctx) :
  (check_blacklist (before b ctx).1 ctx).2 = (check_blacklist b ctx).2.
Proof.
  destruct (before_cases b ctx) as [H|(Hc & Hd & H)]; rewrite H; cbn [fst];
    [reflexivity|].
  unfold check_blacklist. cbn [user_cache]. rewrite lookup_insert_eq, Hc.
  reflexivity.
Qed.

(** An invoker whose row is in storage but not in the cache (a stale
    cache) is not seen by either stage: the hook's insert fails, so it
    writes nothing and refreshes nothing, and the blacklist stage passes
    them whatever their stored [_blacklisted] column says. *)
Theorem before_stale_cache (b : Bot) (ctx : Ctx) (p : Profile) :
  user_cache b !! author ctx = None -> user_data b !! author ctx = Some p ->
  before b ctx = (b, []) /\ (check_blacklist b ctx).2 = Pass.
Proof.
  intros Hc Hd. unfold before, insert_user, check_blacklist.
  rewrite Hc, Hd. split; reflexivity.
Qed.

Lemma before_stale_cache_witness :
  before (mkBot neo_cd ∅ (<[7%Z := mkProfile (Some true)]> ∅)) (mkCtx 7 100)
  = (mkBot neo_cd ∅ (<[7%Z := mkProfile (Some true)]> ∅), []) /\
  (check_blacklist (mkBot neo_cd ∅ (<[7%Z := mkProfile (Some true)]> ∅))
     (mkCtx 7 100)).2 = Pass.
Proof.
  apply (before_stale_cache _ (mkCtx 7 100) (mkProfile (Some true)));
    reflexivity.
Defined.

End HookExtraFacts.
